(** * Pageres: the capture orchestration pipeline of [index.js]

    A shallow embedding of [index.js]: the constructor, [src], [dest],
    [run] with its three size-resolution branches, [_resolution],
    [_viewport], [_generate], [_phantom] and the listeners that [_save]
    attaches to a stream.

    JavaScript strings are modelled by [string] (code units below 256),
    arrays by [list], objects with optional keys by records of [option]
    fields.  The packages the file requires but does not contain (the file
    system, [url], [file-url], [slugify-url], [easydate], [get-res],
    [viewport-list], [parse-cookie-phantomjs], the PhantomJS path) are the
    fields of an environment record [Env]; [lodash], [memoize-async] and
    [each-async] are modelled by the definitions of the modules [Lodash],
    [Memo] and by [eachAsync] below. *)

From Stdlib Require Import List String Ascii Bool Arith Lia.
Import ListNotations.
Open Scope string_scope.
Open Scope bool_scope.

(** ** Strings as JavaScript sees them *)

Module Js.

(** [String.prototype.length]. *)
Definition len (s : string) : nat := String.length s.

(** The test behind a regular expression of the form [/^literal/]. *)
Definition starts_with (p s : string) : bool := String.prefix p s.

(** Removes the first [n] code units. *)
Fixpoint drop (n : nat) (s : string) : string :=
  match n, s with
  | O, _ => s
  | S _, EmptyString => EmptyString
  | S k, String _ r => drop k r
  end.

(** The test behind an unanchored literal regular expression. *)
Fixpoint includes (needle hay : string) : bool :=
  match hay with
  | EmptyString => starts_with needle EmptyString
  | String _ r => starts_with needle hay || includes needle r
  end.

(** [\d]: the ten ASCII digits. *)
Definition is_digit (c : ascii) : bool :=
  let n := nat_of_ascii c in ((48 <=? n) && (n <=? 57))%nat.

(** White space and line terminators among the code units below 256:
    TAB, LF, VT, FF, CR, SP and NBSP. *)
Definition is_space (c : ascii) : bool :=
  let n := nat_of_ascii c in
  (((9 <=? n) && (n <=? 13)) || (n =? 32) || (n =? 160))%nat.

Fixpoint trim_left (s : string) : string :=
  match s with
  | EmptyString => EmptyString
  | String c r => if is_space c then trim_left r else s
  end.

Fixpoint trim_right (s : string) : string :=
  match s with
  | EmptyString => EmptyString
  | String c r =>
      match trim_right r with
      | EmptyString => if is_space c then EmptyString else String c EmptyString
      | r' => String c r'
      end
  end.

(** [String.prototype.trim]. *)
Definition trim (s : string) : string := trim_right (trim_left s).

(** A value used as a condition: the empty string is falsy. *)
Definition truthy (s : string) : bool := negb (s =? "").

(** The longest prefix of [s] made of characters satisfying [p], and
    what follows it. *)
Fixpoint span (p : ascii -> bool) (s : string) : string * string :=
  match s with
  | EmptyString => (EmptyString, EmptyString)
  | String c r =>
      if p c then let (a, b) := span p r in (String c a, b)
      else (EmptyString, s)
  end.

(** [s.split(/x/i)]: the pieces between the occurrences of [x] or [X]. *)
Fixpoint split_x (s : string) : list string :=
  match s with
  | EmptyString => [EmptyString]
  | String c r =>
      if ((c =? "x") || (c =? "X"))%char then EmptyString :: split_x r
      else match split_x r with
           | [] => [String c EmptyString]
           | h :: t => String c h :: t
           end
  end.

End Js.

(** ** The part of lodash that [index.js] uses *)

Module Lodash.

(** [Array.prototype.indexOf(v) !== -1] on an array of strings. *)
Definition contains (v : string) (l : list string) : bool :=
  existsb (String.eqb v) l.

(** [_.uniq]: walks the array and appends a value to the result unless
    the result holds it already. *)
Definition uniq (l : list string) : list string :=
  fold_left (fun result v => if contains v result then result else (result ++ [v])%list)
            l [].

(** [_.difference(array, values)]: the elements of [array], in order and
    with their repetitions, that [values] does not hold. *)
Definition difference (array values : list string) : list string :=
  filter (fun v => negb (contains v values)) array.

(** The names bound by the data object that [_generate] passes to
    [_.template]. *)
Inductive Placeholder := PUrl | PSize | PCrop | PDate.

Inductive Chunk :=
| Lit (text : string)
| Interp (p : Placeholder).

Definition placeholder_of (name : string) : option Placeholder :=
  if name =? "url" then Some PUrl
  else if name =? "size" then Some PSize
  else if name =? "crop" then Some PCrop
  else if name =? "date" then Some PDate
  else None.

(** Scanner states of the template compiler. *)
Inductive Mode :=
| Text                     (* plain text *)
| SawLt                    (* after "<" *)
| SawLtPct                 (* after "<%" *)
| SawDollar                (* after "$" *)
| Expr (e : string)        (* inside "<%=", [e] read so far *)
| ExprPct (e : string).    (* inside "<%=", after "%" *)

Definition snoc (s : string) (c : ascii) : string := s ++ String c EmptyString.

Definition emit (lit : string) (rest : list Chunk) : list Chunk :=
  match lit with
  | EmptyString => rest
  | _ => Lit lit :: rest
  end.

(** The compiling half of [_.template], restricted to the templates made
    of plain text and of interpolations [<%= name %>] of one of the four
    names of the data object.  [None] stands for every other template:
    an unbound name (lodash raises a ReferenceError when the compiled
    template runs), the delimiters [<% %>], [<%- %>] and [${ }] that
    carry arbitrary JavaScript, an interpolation left open.  Lodash
    renders some of these; what is stated on filenames is stated for the
    templates that compile here. *)
Fixpoint scan (m : Mode) (lit : string) (s : string) : option (list Chunk) :=
  match s with
  | EmptyString =>
      match m with
      | Text => Some (emit lit [])
      | SawLt => Some (emit (snoc lit "<") [])
      | SawDollar => Some (emit (snoc lit "$") [])
      | SawLtPct | Expr _ | ExprPct _ => None
      end
  | String c r =>
      match m with
      | Text =>
          if (c =? "<")%char then scan SawLt lit r
          else if (c =? "$")%char then scan SawDollar lit r
          else scan Text (snoc lit c) r
      | SawLt =>
          if (c =? "%")%char then scan SawLtPct lit r
          else if (c =? "<")%char then scan SawLt (snoc lit "<") r
          else if (c =? "$")%char then scan SawDollar (snoc lit "<") r
          else scan Text (snoc (snoc lit "<") c) r
      | SawDollar =>
          if (c =? "{")%char then None
          else if (c =? "<")%char then scan SawLt (snoc lit "$") r
          else if (c =? "$")%char then scan SawDollar (snoc lit "$") r
          else scan Text (snoc (snoc lit "$") c) r
      | SawLtPct =>
          if (c =? "=")%char then scan (Expr EmptyString) lit r else None
      | Expr e =>
          if (c =? "%")%char then scan (ExprPct e) lit r
          else scan (Expr (snoc e c)) lit r
      | ExprPct e =>
          if (c =? ">")%char then
            match placeholder_of (Js.trim e) with
            | Some p =>
                match scan Text EmptyString r with
                | Some rest => Some (emit lit (Interp p :: rest))
                | None => None
                end
            | None => None
            end
          else if (c =? "%")%char then scan (ExprPct (snoc e "%")) lit r
          else scan (Expr (snoc (snoc e "%") c)) lit r
      end
  end.

Definition compile (text : string) : option (list Chunk) :=
  scan Text EmptyString text.

(** The data object [{url, size, crop, date}]. *)
Record Data := { d_url : string; d_size : string; d_crop : string; d_date : string }.

Definition value_of (d : Data) (p : Placeholder) : string :=
  match p with
  | PUrl => d_url d
  | PSize => d_size d
  | PCrop => d_crop d
  | PDate => d_date d
  end.

(** The running half: values are inserted as they are. *)
Fixpoint render (d : Data) (cs : list Chunk) : string :=
  match cs with
  | [] => EmptyString
  | Lit t :: r => t ++ render d r
  | Interp p :: r => value_of d p ++ render d r
  end.

(** [_.template(text, data)] of lodash 2: compile, then run on [data]. *)
Definition template (text : string) (d : Data) : option string :=
  option_map (render d) (compile text).

End Lodash.

(** ** Data model *)

(** A cookie in the structured form PhantomJS takes: its keys and values. *)
Definition Cookie := list (string * string).

(** An element of [options.cookies]: a header-style string or an object. *)
Inductive CookieIn :=
| CookieString (s : string)
| CookieObject (c : Cookie).

(** An options object.  A key that is absent is [None]; the keys that
    [index.js] never reads and hands to the renderer as they are sit in
    [passthrough]. *)
Record Options := {
  filename : option string;
  crop : option bool;
  delay : option nat;
  cookies : option (list CookieIn);
  passthrough : list (string * string)
}.

Definition no_options : Options :=
  {| filename := None; crop := None; delay := None; cookies := None;
     passthrough := [] |}.

Definition or_else {A} (over base : option A) : option A :=
  match over with
  | Some v => Some v
  | None => base
  end.

(** [assign(target, source)] of object-assign: the keys of [source]
    overwrite those of [target]; a source that is [undefined] is skipped.
    A field is [None] when the object does not have the key; an object
    that has a key with the value [undefined] is not represented.  The
    pass-through keys of [source] are put before those of [target]. *)
Definition assign (target : Options) (source : option Options) : Options :=
  match source with
  | None => target
  | Some s =>
      {| filename := or_else (filename s) (filename target);
         crop := or_else (crop s) (crop target);
         delay := or_else (delay s) (delay target);
         cookies := or_else (cookies s) (cookies target);
         passthrough := (passthrough s ++ passthrough target)%list |}
  end.

(** An element of [this._src], as [src(url, sizes, options)] stores it. *)
Record Source := {
  src_url : option string;
  src_sizes : list string;
  src_options : option Options
}.

(** An entry of the ranked list that [get-res] answers with. *)
Record Resolution := { item : string; count : nat }.

(** An entry of the list that [viewport-list] answers with. *)
Record Viewport := { name : string; size : string }.

(** What a node-style callback receives: an error or a value. *)
Inductive Result (A : Type) :=
| Failure (err : string)
| Success (value : A).
Arguments Failure {A} err.
Arguments Success {A} value.

(** The packages and the host that [index.js] relies on. *)
Record Env := {
  (** [require('phantomjs').path] *)
  phantomjs : string;
  (** [fs.existsSync] *)
  existsSync : string -> bool;
  (** [require('file-url')] *)
  fileUrl : string -> string;
  (** [urlMod.parse(s).protocol], [None] for [null] *)
  url_protocol : string -> option string;
  (** [require('slugify-url')] *)
  slugifyUrl : string -> string;
  (** [date('Y-M-d')] of easydate *)
  today : string;
  (** what [get-res] hands to its callback *)
  getRes : Result (list Resolution);
  (** what [viewport-list] hands to its callback for a keyword list *)
  viewport : list string -> Result (list Viewport);
  (** [require('parse-cookie-phantomjs')] *)
  parseCookiePhantomjs : string -> Cookie
}.

(** The object that [_phantom] serialises for the renderer:
    [assign({delay: 0}, options, {url, width, height})]. *)
Record PhantomOptions := {
  ph_options : Options;
  ph_url : string;
  ph_width : string;
  ph_height : option string
}.

(** The stream that [_generate] returns: the decoded output of one
    renderer subprocess, tagged with its filename. *)
Record Stream := {
  stream_job : PhantomOptions;
  stream_filename : string
}.

Record Stats := { screenshots : nat; urls : nat }.

(** An instance of [Pageres]: the fields that the constructor and [dest]
    set on [this]. *)
Record PageresInstance := {
  stats : option Stats;
  options : Options;
  _src : list Source;
  _items : list Stream;
  _sizes : list string;
  _urls : list string;
  _dest : option string;
  _resolutions : option (list Resolution)
}.

(** What the callback of [run] is called with, or the hand-over to
    [_save]. *)
Inductive Report :=
| CbError (err : string)
| CbItems (items : list Stream)
| SaveItems (dest : string) (items : list Stream).

(** An instance together with what the run has done to the outside. *)
Record State := {
  self : PageresInstance;
  (** the subprocesses spawned, oldest first *)
  spawned : list PhantomOptions;
  (** how many times [get-res] itself was invoked *)
  getRes_calls : nat;
  (** the keyword lists [viewport-list] itself was invoked with *)
  viewport_calls : list (list string);
  (** the calls of [cb] and the hand-over to [_save], oldest first *)
  reports : list Report;
  (** an exception left a callback uncaught: the process is gone *)
  crashed : bool
}.

Definition with_self (f : PageresInstance -> PageresInstance) (st : State) : State :=
  {| self := f (self st); spawned := spawned st;
     getRes_calls := getRes_calls st; viewport_calls := viewport_calls st;
     reports := reports st; crashed := crashed st |}.

Definition push_url (u : string) : State -> State :=
  with_self (fun p =>
    {| stats := stats p; options := options p; _src := _src p;
       _items := _items p; _sizes := _sizes p; _urls := (_urls p ++ [u])%list;
       _dest := _dest p; _resolutions := _resolutions p |}).

Definition push_size (s : string) : State -> State :=
  with_self (fun p =>
    {| stats := stats p; options := options p; _src := _src p;
       _items := _items p; _sizes := (_sizes p ++ [s])%list; _urls := _urls p;
       _dest := _dest p; _resolutions := _resolutions p |}).

Definition push_item (i : Stream) : State -> State :=
  with_self (fun p =>
    {| stats := stats p; options := options p; _src := _src p;
       _items := (_items p ++ [i])%list; _sizes := _sizes p; _urls := _urls p;
       _dest := _dest p; _resolutions := _resolutions p |}).

Definition set_resolutions (r : list Resolution) : State -> State :=
  with_self (fun p =>
    {| stats := stats p; options := options p; _src := _src p;
       _items := _items p; _sizes := _sizes p; _urls := _urls p;
       _dest := _dest p; _resolutions := Some r |}).

Definition set_stats (s : Stats) : State -> State :=
  with_self (fun p =>
    {| stats := Some s; options := options p; _src := _src p;
       _items := _items p; _sizes := _sizes p; _urls := _urls p;
       _dest := _dest p; _resolutions := _resolutions p |}).

Definition log_spawn (o : PhantomOptions) (st : State) : State :=
  {| self := self st; spawned := (spawned st ++ [o])%list;
     getRes_calls := getRes_calls st; viewport_calls := viewport_calls st;
     reports := reports st; crashed := crashed st |}.

Definition log_getRes (st : State) : State :=
  {| self := self st; spawned := spawned st;
     getRes_calls := S (getRes_calls st); viewport_calls := viewport_calls st;
     reports := reports st; crashed := crashed st |}.

Definition log_viewport (keywords : list string) (st : State) : State :=
  {| self := self st; spawned := spawned st;
     getRes_calls := getRes_calls st;
     viewport_calls := (viewport_calls st ++ [keywords])%list;
     reports := reports st; crashed := crashed st |}.

Definition report (r : Report) (st : State) : State :=
  {| self := self st; spawned := spawned st;
     getRes_calls := getRes_calls st; viewport_calls := viewport_calls st;
     reports := (reports st ++ [r])%list; crashed := crashed st |}.

Definition crash (st : State) : State :=
  {| self := self st; spawned := spawned st;
     getRes_calls := getRes_calls st; viewport_calls := viewport_calls st;
     reports := reports st; crashed := true |}.

(** ** The constructor, [src] and [dest] *)

Definition default_filename : string := "<%= url %>-<%= size %><%= crop %>".

(** The body of [Pageres] once [this] is an instance. *)
Definition construct (E : Env) (opts : option Options) : PageresInstance :=
  let o := assign no_options opts in
  let name :=
    match filename o with
    | Some f => if Js.truthy f then f else default_filename
    | None => default_filename
    end in
  let parsed :=
    map (fun el => match el with
                   | CookieString s => CookieObject (parseCookiePhantomjs E s)
                   | CookieObject c => CookieObject c
                   end)
        (match cookies o with Some l => l | None => [] end) in
  {| stats := None;
     options := {| filename := Some name; crop := crop o; delay := delay o;
                   cookies := Some parsed; passthrough := passthrough o |};
     _src := []; _items := []; _sizes := []; _urls := [];
     _dest := None; _resolutions := None |}.

(** [Pageres(options)].  [with_new] tells whether the function was called
    with [new], that is whether [this instanceof Pageres] holds; when it
    does not, the function returns [new Pageres()]. *)
Definition Pageres (E : Env) (with_new : bool) (opts : option Options) : PageresInstance :=
  if negb with_new then construct E None else construct E opts.

(** [src(url, sizes, options)], the setter. *)
Definition src (p : PageresInstance) (url : option string) (sizes : list string)
    (opts : option Options) : PageresInstance :=
  {| stats := stats p; options := options p;
     _src := (_src p ++ [{| src_url := url; src_sizes := sizes; src_options := opts |}])%list;
     _items := _items p; _sizes := _sizes p; _urls := _urls p;
     _dest := _dest p; _resolutions := _resolutions p |}.

(** [dest(dir)], the setter. *)
Definition dest (p : PageresInstance) (dir : string) : PageresInstance :=
  {| stats := stats p; options := options p; _src := _src p;
     _items := _items p; _sizes := _sizes p; _urls := _urls p;
     _dest := Some dir; _resolutions := _resolutions p |}.

(** ** Size tokens: [run], the first lines of the iterator *)

Definition is_x (c : ascii) : bool := ((c =? "x") || (c =? "X"))%char.

(** The quantifier [{3,4}] on a run of digits. *)
Definition three_or_four (s : string) : bool :=
  ((3 <=? Js.len s) && (Js.len s <=? 4))%nat.

(** [/^\d{3,4}x\d{3,4}$/i.test(t)].  The character after the first digits
    has to be an [x], which is no digit, so the digits before it are the
    whole run of digits at the start; likewise the second run has to reach
    the end of the string. *)
Definition is_resolution (t : string) : bool :=
  let (w, r) := Js.span Js.is_digit t in
  match r with
  | EmptyString => false
  | String c r' =>
      let (h, e) := Js.span Js.is_digit r' in
      three_or_four w && is_x c && three_or_four h && (e =? "")
  end.

(** [_.uniq(src.sizes.filter(/./.test, /^\d{3,4}x\d{3,4}$/i))] *)
Definition explicit_sizes (tokens : list string) : list string :=
  Lodash.uniq (filter is_resolution tokens).

(** [_.difference(src.sizes, sizes)] *)
Definition keywords_of (tokens : list string) : list string :=
  Lodash.difference tokens (explicit_sizes tokens).

Definition w3counter : string := "w3counter".

(** ** [_generate] and [_phantom] *)

Definition has_protocol (E : Env) (s : string) : bool :=
  match url_protocol E s with
  | Some p => Js.truthy p
  | None => false
  end.

(** The value of [newUrl]. *)
Definition normalize (E : Env) (url : string) : string :=
  if existsSync E url then fileUrl E url
  else
    let newUrl := if Js.starts_with "localhost" url then "http://" ++ url else url in
    if has_protocol E newUrl then newUrl else "http://" ++ newUrl.

(** [s.replace(/^(?:https?:\/\/)?www\./, '')] *)
Definition strip_www (s : string) : string :=
  if Js.starts_with "http://www." s then Js.drop 11 s
  else if Js.starts_with "https://www." s then Js.drop 12 s
  else if Js.starts_with "www." s then Js.drop 4 s
  else s.

Definition is_true (b : option bool) : bool :=
  match b with
  | Some true => true
  | _ => false
  end.

(** [options.filename + '.png']; an absent key prints as [undefined]. *)
Definition template_text (o : Options) : string :=
  match filename o with
  | Some f => f
  | None => "undefined"
  end ++ ".png".

(** The data object of the template. *)
Definition template_data (E : Env) (url size : string) (o : Options) : Lodash.Data :=
  let isFile := existsSync E url in
  {| Lodash.d_url := strip_www (slugifyUrl E (if isFile then url else normalize E url));
     Lodash.d_size := size;
     Lodash.d_crop := if is_true (crop o) then "-cropped" else "";
     Lodash.d_date := today E |}.

(** The value of [filename]; [None] when the template does not render. *)
Definition filename_of (E : Env) (url size : string) (o : Options) : option string :=
  Lodash.template (template_text o) (template_data E url size o).

(** [assign({ delay: 0 }, options, { url, width, height })] *)
Definition phantom_options (E : Env) (url size : string) (o : Options) : PhantomOptions :=
  {| ph_options :=
       assign {| filename := None; crop := None; delay := Some 0; cookies := None;
                 passthrough := [] |} (Some o);
     ph_url := normalize E url;
     ph_width := hd "" (Js.split_x size);
     ph_height := nth_error (Js.split_x size) 1 |}.

(** [_phantom(options)]: spawns the renderer and returns its stream. *)
Definition _phantom (o : PhantomOptions) (st : State) : PhantomOptions * State :=
  (o, log_spawn o st).

(** [_generate(url, size, options)].  The filename is computed before the
    subprocess is spawned; when the template raises, nothing is spawned and
    the result is [None]. *)
Definition _generate (E : Env) (url size : string) (o : Options) (st : State)
    : option Stream * State :=
  match filename_of E url size o with
  | None => (None, st)
  | Some f =>
      let (stream, st1) := _phantom (phantom_options E url size o) st in
      (Some {| stream_job := stream; stream_filename := f |}, st1)
  end.

(** ** The diagnostic channel of a subprocess *)

Inductive StreamEvent :=
| Warn (payload : string)
| Error (message : string).

(** The listener of [cp.stderr] in [_phantom], on one chunk of text. *)
Definition on_stderr (data : string) : option StreamEvent :=
  if Js.includes " phantomjs[" data then None
  else if Js.starts_with "WARN: " data then Some (Warn (Js.drop 6 data))
  else if negb (Js.len (Js.trim data) =? 0)%nat then Some (Error data)
  else None.

(** What the listeners that [_save] attaches do with an event of a stream:
    a warning is emitted again on the instance, an error goes to [next]. *)
Inductive SaveReaction :=
| EmitWarn (payload : string)
| FailSave (err : string).

Definition _save_listener (ev : StreamEvent) : SaveReaction :=
  match ev with
  | Warn p => EmitWarn p
  | Error m => FailSave m
  end.

(** ** The cache around the lookups *)

Module Memo.

(** Modelled from the spec: the result-caching wrapper ([memoize-async])
    is not part of the repository.  The spec describes it as a memoizing
    cache keyed on the call arguments that stores a pending or a
    completed result.  [memoize(fn)] returns a wrapper that owns such a
    cache, empty at first; a call of the wrapper with arguments that the
    cache holds is answered from it, any other call invokes [fn]. *)
Definition Cache (A : Type) := list (list string * Result A).

Definition memoize {A : Type} : Cache A := [].

Fixpoint find {A : Type} (c : Cache A) (args : list string) : option (Result A) :=
  match c with
  | [] => None
  | (k, r) :: rest =>
      if list_eq_dec string_dec k args then Some r else find rest args
  end.

(** What the wrapper does to its cache when [fn] has answered. *)
Definition store {A : Type} (c : Cache A) (args : list string) (r : Result A)
    : Cache A :=
  (args, r) :: c.

End Memo.

(** ** The iterator of [run], [_resolution] and [_viewport] *)

(** How a step of the iteration ends. *)
Inductive Outcome :=
| Next                       (* next() *)
| NextError (err : string)   (* next(err) *)
| Stalled                    (* returned without calling next *)
| Threw.                     (* an exception left the function *)

(** A lookup that has been sent and whose callback has not run yet. *)
Inductive Pending :=
| AwaitResolution (url : string) (o : Options)
| AwaitViewport (url : string) (sizes keywords : list string) (o : Options).

Inductive Step :=
| Settled (out : Outcome)
| Await (p : Pending).

(** [list.forEach(function (size) { ... self._generate(url, size, options) ... })]
    as the three loops of the file have it: with [record], the size is
    pushed on [_sizes] before the job is generated. *)
Fixpoint generate_each (E : Env) (record : bool) (url : string) (o : Options)
    (sizes : list string) (st : State) : State * bool :=
  match sizes with
  | [] => (st, true)
  | s :: rest =>
      let st1 := if record then push_size s st else st in
      match _generate E url s o st1 with
      | (Some i, st2) => generate_each E record url o rest (push_item i st2)
      | (None, st2) => (st2, false)
      end
  end.

Definition ended (r : State * bool) : State * Outcome :=
  (fst r, if snd r then Next else Threw).

(** The callback that [_resolution] gives to the wrapped [get-res]. *)
Definition _resolution_cb (E : Env) (url : string) (o : Options)
    (answer : Result (list Resolution)) (st : State) : State * Outcome :=
  match answer with
  | Failure err => (st, NextError err)
  | Success res =>
      ended (generate_each E true url o (map item res) (set_resolutions res st))
  end.

(** [_resolution(url, options, cb)]: wraps [get-res] in a new cache and
    calls the wrapper with no argument. *)
Definition _resolution (E : Env) (url : string) (o : Options) (st : State)
    : State * Step :=
  let g := @Memo.memoize (list Resolution) in
  match Memo.find g [] with
  | Some answer =>
      let (st1, out) := _resolution_cb E url o answer st in (st1, Settled out)
  | None => (log_getRes st, Await (AwaitResolution url o))
  end.

(** The callback that [_viewport] gives to the wrapped [viewport-list].
    The first loop pushes the sizes of the answer on [_sizes] and on the
    local array [sizes]; the second generates a job for each element of
    [_.uniq(sizes)]. *)
Definition _viewport_cb (E : Env) (url : string) (sizes : list string)
    (o : Options) (answer : Result (list Viewport)) (st : State) : State * Outcome :=
  match answer with
  | Failure err => (st, NextError err)
  | Success res =>
      let st1 := fold_left (fun s r => push_size (size r) s) res st in
      let sizes1 := (sizes ++ map size res)%list in
      ended (generate_each E false url o (Lodash.uniq sizes1) st1)
  end.

(** [_viewport(url, sizes, keywords, options, cb)]: wraps [viewport-list]
    in a new cache and calls the wrapper with the keywords. *)
Definition _viewport (E : Env) (url : string) (sizes keywords : list string)
    (o : Options) (st : State) : State * Step :=
  let v := @Memo.memoize (list Viewport) in
  match Memo.find v keywords with
  | Some answer =>
      let (st1, out) := _viewport_cb E url sizes o answer st in (st1, Settled out)
  | None => (log_viewport keywords st, Await (AwaitViewport url sizes keywords o))
  end.

(** The function that [run] gives to [eachAsync], applied to one source. *)
Definition iterator (E : Env) (st : State) (s : Source) : State * Step :=
  let o := assign (assign no_options (Some (options (self st)))) (src_options s) in
  let sizes := explicit_sizes (src_sizes s) in
  let keywords := keywords_of (src_sizes s) in
  match src_url s with
  | None => (report (CbError "URL required") st, Settled Stalled)
  | Some url =>
      if negb (Js.truthy url) then
        (report (CbError "URL required") st, Settled Stalled)
      else
        let st1 := push_url url st in
        if (List.length sizes =? 0)%nat && Lodash.contains w3counter keywords then
          _resolution E url o st1
        else if negb (List.length keywords =? 0)%nat then
          _viewport E url sizes keywords o st1
        else
          let (st2, out) := ended (generate_each E true url o sizes st1) in
          (st2, Settled out)
  end.

(** The lookup answers: the callback of a pending lookup runs. *)
Definition deliver (E : Env) (p : Pending) (st : State) : State * Outcome :=
  match p with
  | AwaitResolution url o => _resolution_cb E url o (getRes E) st
  | AwaitViewport url sizes keywords o =>
      _viewport_cb E url sizes o (viewport E keywords) st
  end.

(** ** [run] *)

(** The function that [run] gives to [eachAsync] as its last argument, on
    the path without error: the statistics, then the streams go to the
    caller or to [_save]. *)
Definition finish (st : State) : State :=
  let p := self st in
  let st1 :=
    set_stats {| screenshots := List.length (Lodash.uniq (_sizes p));
                 urls := List.length (Lodash.uniq (_urls p)) |} st in
  match _dest p with
  | None => report (CbItems (_items p)) st1
  | Some d =>
      if Js.truthy d then report (SaveItems d (_items p)) st1
      else report (CbItems (_items p)) st1
  end.

(** Modelled from the spec: [each-async] is not part of the repository.
    The spec has the sources taken in registration order, the first error
    ending the iteration, and the next source started only once the step
    of the previous one has settled ([Series]); the package itself starts
    the function on every element, in order, before any lookup answers,
    counts the calls of [next] and ignores them after the first error
    ([Concurrent]).  Both are modelled, and the theorems on [run] hold for
    both. *)
Inductive Discipline := Series | Concurrent.

Fixpoint each_series (E : Env) (l : list Source) (st : State) : State :=
  match l with
  | [] => finish st
  | s :: rest =>
      let (st1, out) :=
        match iterator E st s with
        | (st1, Settled out) => (st1, out)
        | (st1, Await p) => deliver E p st1
        end in
      match out with
      | Next => each_series E rest st1
      | NextError err => report (CbError err) st1
      | Stalled => st1
      | Threw => crash st1
      end
  end.

(** The bookkeeping of the concurrent iteration. *)
Record Loop := { failed : bool; completed : nat }.

(** The [next] that the concurrent iteration hands to the function, for an
    array of [len] elements. *)
Definition callback (len : nat) (out : Outcome) (lp : Loop) (st : State)
    : Loop * State :=
  match out with
  | Stalled => (lp, st)
  | Threw => (lp, crash st)
  | NextError err =>
      if failed lp then (lp, st)
      else ({| failed := true; completed := completed lp |}, report (CbError err) st)
  | Next =>
      if failed lp then (lp, st)
      else
        let c := S (completed lp) in
        ({| failed := false; completed := c |},
         if (c =? len)%nat then finish st else st)
  end.

(** First the function runs on every source; the lookups it sends wait. *)
Fixpoint start_all (E : Env) (len : nat) (l : list Source) (lp : Loop)
    (st : State) (waiting : list Pending) : Loop * State * list Pending :=
  match l with
  | [] => (lp, st, waiting)
  | s :: rest =>
      match iterator E st s with
      | (st1, Await p) => start_all E len rest lp st1 (waiting ++ [p])%list
      | (st1, Settled out) =>
          let (lp1, st2) := callback len out lp st1 in
          if crashed st2 then (lp1, st2, waiting)
          else start_all E len rest lp1 st2 waiting
      end
  end.

(** Then the lookups answer, in the order they were sent. *)
Fixpoint deliver_all (E : Env) (len : nat) (waiting : list Pending) (lp : Loop)
    (st : State) : State :=
  match waiting with
  | [] => st
  | p :: rest =>
      let (st1, out) := deliver E p st in
      let (lp1, st2) := callback len out lp st1 in
      if crashed st2 then st2 else deliver_all E len rest lp1 st2
  end.

Definition each_concurrent (E : Env) (l : list Source) (st : State) : State :=
  match l with
  | [] => finish st
  | _ =>
      match start_all E (List.length l) l {| failed := false; completed := 0 |} st [] with
      | (lp, st1, waiting) =>
          if crashed st1 then st1 else deliver_all E (List.length l) waiting lp st1
      end
  end.

Definition eachAsync (d : Discipline) (E : Env) (l : list Source) (st : State)
    : State :=
  match d with
  | Series => each_series E l st
  | Concurrent => each_concurrent E l st
  end.

Definition newline : string := String (ascii_of_nat 10) EmptyString.

Definition phantomjs_missing : string :=
  "The automatic install of PhantomJS, which is used for generating the screenshots, seems to have failed."
  ++ newline ++ "Try installing it manually: http://phantomjs.org/download.html".

(** The world before [run]: nothing spawned, nothing called. *)
Definition initial (p : PageresInstance) : State :=
  {| self := p; spawned := []; getRes_calls := 0; viewport_calls := [];
     reports := []; crashed := false |}.

(** [run(cb)] on the instance [p]. *)
Definition run (d : Discipline) (E : Env) (p : PageresInstance) : State :=
  if negb (Js.truthy (phantomjs E)) then
    report (CbError phantomjs_missing) (initial p)
  else eachAsync d E (_src p) (initial p).

(** ** A host to run the examples on *)

Module Sample.

Definition is_letter (c : ascii) : bool :=
  let n := nat_of_ascii c in
  (((65 <=? n) && (n <=? 90)) || ((97 <=? n) && (n <=? 122)))%nat.

Definition is_protocol_char (c : ascii) : bool :=
  is_letter c || Js.is_digit c || (c =? ".")%char || (c =? "+")%char
  || (c =? "-")%char.

(** The protocol that [url.parse] of Node finds: its pattern
    [/^([a-z0-9.+-]+:)/i] on the trimmed string. *)
Definition node_protocol (s : string) : option string :=
  match Js.span is_protocol_char (Js.trim s) with
  | (String c p, String d _) =>
      if (d =? ":")%char then Some (String c p ++ ":") else None
  | _ => None
  end.

Fixpoint bang_slashes (s : string) : string :=
  match s with
  | EmptyString => EmptyString
  | String c r => String (if (c =? "/")%char then "!"%char else c) (bang_slashes r)
  end.

(** A slug in the manner of [slugify-url]: the protocol goes, the
    slashes become exclamation marks. *)
Definition slug (s : string) : string :=
  bang_slashes
    (if Js.starts_with "http://" s then Js.drop 7 s
     else if Js.starts_with "https://" s then Js.drop 8 s
     else s).

Definition devices (keywords : list string) : Result (list Viewport) :=
  if Lodash.contains "iphone 5s" keywords then
    Success [{| name := "iphone 5s"; size := "320x568" |}]
  else if Lodash.contains "nexus 7" keywords then
    Success [{| name := "nexus 7"; size := "603x966" |};
             {| name := "nexus 7 landscape"; size := "966x603" |}]
  else Failure "No sizes found".

Definition env : Env :=
  {| phantomjs := "/usr/local/bin/phantomjs";
     existsSync := fun p => p =? "index.html";
     fileUrl := fun p => "file:///home/user/" ++ p;
     url_protocol := node_protocol;
     slugifyUrl := slug;
     today := "2014-7-25";
     getRes := Success [{| item := "1366x768"; count := 3 |};
                        {| item := "1920x1080"; count := 2 |};
                        {| item := "1366x768"; count := 1 |}];
     viewport := devices;
     parseCookiePhantomjs := fun s => [("name", s)] |}.

(** [new Pageres()] followed by calls of [src]. *)
Definition with_sources (l : list Source) : PageresInstance :=
  fold_left (fun p s => src p (src_url s) (src_sizes s) (src_options s)) l
            (Pageres env true None).

Definition source (url : string) (sizes : list string) : Source :=
  {| src_url := Some url; src_sizes := sizes; src_options := None |}.

Definition no_url (sizes : list string) : Source :=
  {| src_url := None; src_sizes := sizes; src_options := None |}.

End Sample.

(** ** Notions used in the statements *)

(** A string of digits. *)
Fixpoint all_digits (s : string) : bool :=
  match s with
  | EmptyString => true
  | String c r => Js.is_digit c && all_digits r
  end.

(** The stream of one job when the filename template compiles to [chunks]. *)
Definition stream_of (E : Env) (url : string) (o : Options)
    (chunks : list Lodash.Chunk) (sz : string) : Stream :=
  {| stream_job := phantom_options E url sz o;
     stream_filename := Lodash.render (template_data E url sz o) chunks |}.

(** The state with sizes recorded and streams created, a subprocess
    spawned for each of the streams. *)
Definition add_jobs (new_sizes : list string) (new_items : list Stream)
    (st : State) : State :=
  let p := self st in
  {| self := {| stats := stats p; options := options p; _src := _src p;
                _items := (_items p ++ new_items)%list;
                _sizes := (_sizes p ++ new_sizes)%list;
                _urls := _urls p; _dest := _dest p;
                _resolutions := _resolutions p |};
     spawned := (spawned st ++ map stream_job new_items)%list;
     getRes_calls := getRes_calls st; viewport_calls := viewport_calls st;
     reports := reports st; crashed := crashed st |}.

(** The options of one source: [assign({}, self.options, src.options)]. *)
Definition merged (st : State) (s : Source) : Options :=
  assign (assign no_options (Some (options (self st)))) (src_options s).

(** A source without URL: [!src.url] holds. *)
Definition missing_url (s : Source) : bool :=
  match src_url s with
  | None => true
  | Some u => negb (Js.truthy u)
  end.

Definition is_error (r : Report) : bool :=
  match r with
  | CbError _ => true
  | _ => false
  end.

(** What the job loops and the lookups leave alone: the reports, the
    crash flag and the statistics. *)
Definition frame (st : State) : list Report * bool * option Stats :=
  (reports st, crashed st, stats (self st)).

(** A run that ends in failure: every report is an error, there is one
    unless the process crashed, and the statistics were not computed. *)
Definition failed_from (st r : State) : Prop :=
  forallb is_error (reports r) = true
  /\ (reports r <> [] \/ crashed r = true)
  /\ stats (self r) = stats (self st).

(** ** The diagnostic channel read line by line *)

(** The pieces of [s] between its line feeds. *)
Fixpoint spec_lines (s : string) : list string :=
  match s with
  | EmptyString => [EmptyString]
  | String c r =>
      if (c =? ascii_of_nat 10)%char then EmptyString :: spec_lines r
      else match spec_lines r with
           | [] => [String c EmptyString]
           | h :: t => String c h :: t
           end
  end.

(** What the specification says of one diagnostic line: a banner line is
    dropped, a line with the prefix [WARN: ] is a warning that carries the
    rest of the line, any other line that is not blank is an error that
    carries the line. *)
Definition spec_line_event (line : string) : option StreamEvent :=
  if Js.includes " phantomjs[" line then None
  else if Js.starts_with "WARN: " line then Some (Warn (Js.drop 6 line))
  else if negb (Js.len (Js.trim line) =? 0)%nat then Some (Error line)
  else None.

(** The events of a chunk under the line-by-line reading. *)
Definition spec_on_stderr (data : string) : list StreamEvent :=
  flat_map (fun line => match spec_line_event line with
                        | Some ev => [ev]
                        | None => []
                        end)
           (spec_lines data).

(** The events that the listener of [_phantom] emits on a chunk. *)
Definition emitted (data : string) : list StreamEvent :=
  match on_stderr data with
  | Some ev => [ev]
  | None => []
  end.

(** ** Notions used in the further statements *)

(** [st'] is [st] after some work of a run: the options, the registered
    sources and the destination are the same; streams, sizes and URLs
    were appended, and one subprocess was spawned for each appended
    stream, in the same order. *)
Definition grows (st st' : State) : Prop :=
  options (self st') = options (self st)
  /\ _src (self st') = _src (self st)
  /\ _dest (self st') = _dest (self st)
  /\ (exists items,
        _items (self st') = (_items (self st) ++ items)%list
        /\ spawned st' = (spawned st ++ map stream_job items)%list)
  /\ (exists sizes, _sizes (self st') = (_sizes (self st) ++ sizes)%list)
  /\ (exists urls, _urls (self st') = (_urls (self st) ++ urls)%list).

(** The options of a source under the instance options [o]. *)
Definition options_for (o : Options) (s : Source) : Options :=
  assign (assign no_options (Some o)) (src_options s).

(** The filename template of [o] compiles. *)
Definition renders (o : Options) : bool :=
  match Lodash.compile (template_text o) with
  | Some _ => true
  | None => false
  end.

Definition succeeded {A : Type} (r : Result A) : bool :=
  match r with
  | Success _ => true
  | Failure _ => false
  end.

(** The lookup that a source with a URL sends, if any, answers. *)
Definition lookup_answers (E : Env) (s : Source) : bool :=
  let sizes := explicit_sizes (src_sizes s) in
  let keywords := keywords_of (src_sizes s) in
  if (List.length sizes =? 0)%nat && Lodash.contains w3counter keywords then
    succeeded (getRes E)
  else if negb (List.length keywords =? 0)%nat then
    succeeded (viewport E keywords)
  else true.

(** A source that [run] gets through: it has a URL, its filename
    template compiles and its lookup, if it sends one, answers. *)
Definition healthy (E : Env) (o : Options) (s : Source) : bool :=
  negb (missing_url s) && renders (options_for o s) && lookup_answers E s.

(** A pending lookup whose callback will end with [next()]. *)
Definition pending_ok (E : Env) (p : Pending) : bool :=
  match p with
  | AwaitResolution _ o => renders o && succeeded (getRes E)
  | AwaitViewport _ _ keywords o => renders o && succeeded (viewport E keywords)
  end.

(** What the callback of [run] gets, or [_save], on the path without
    error. *)
Definition final_report (p : PageresInstance) : Report :=
  match _dest p with
  | None => CbItems (_items p)
  | Some d => if Js.truthy d then SaveItems d (_items p) else CbItems (_items p)
  end.

(** The statistics that [run] computes from an instance. *)
Definition stats_of (p : PageresInstance) : Stats :=
  {| screenshots := List.length (Lodash.uniq (_sizes p));
     urls := List.length (Lodash.uniq (_urls p)) |}.

(** The URL of a source that has one. *)
Definition url_of (s : Source) : string :=
  match src_url s with
  | Some u => u
  | None => ""
  end.

(** What a step of a run leaves alone apart from the lists it appends to:
    reports, crash flag, statistics, options and destination. *)
Definition outside (st : State)
    : list Report * bool * option Stats * Options * option string :=
  (reports st, crashed st, stats (self st), options (self st), _dest (self st)).

(** The run has ended well after the reports [before]: one more report,
    the final one, the statistics of the lists as they are, no crash. *)
Definition done (before : list Report) (st : State) : Prop :=
  reports st = (before ++ [final_report (self st)])%list
  /\ stats (self st) = Some (stats_of (self st))
  /\ crashed st = false.

(** A pending lookup that will answer with an error. *)
Definition pending_fails (E : Env) (p : Pending) : bool :=
  match p with
  | AwaitResolution _ _ => negb (succeeded (getRes E))
  | AwaitViewport _ _ keywords _ => negb (succeeded (viewport E keywords))
  end.

(** A source that cannot end with [next()]: it has no URL, or the lookup
    it sends answers with an error. *)
Definition doomed (E : Env) (s : Source) : bool :=
  missing_url s || negb (lookup_answers E s).

(** One of the pending lookups will answer with an error. *)
Definition some_fails (E : Env) (waiting : list Pending) : Prop :=
  exists p, In p waiting /\ pending_fails E p = true.

(** A source with a URL and no keyword among its tokens. *)
Definition plain (s : Source) : bool :=
  negb (missing_url s) && (List.length (keywords_of (src_sizes s)) =? 0)%nat.

(** The stream that [_generate] returns when the template renders. *)
Definition job (E : Env) (url : string) (o : Options) (sz : string) : Stream :=
  {| stream_job := phantom_options E url sz o;
     stream_filename :=
       match filename_of E url sz o with
       | Some f => f
       | None => ""
       end |}.

(** The streams of a source without keywords, under the instance options
    [o]: one for each explicit size. *)
Definition jobs_of (E : Env) (o : Options) (s : Source) : list Stream :=
  map (job E (url_of s) (options_for o s)) (explicit_sizes (src_sizes s)).

(** No character of [s] is an [x] of either case. *)
Fixpoint no_x (s : string) : bool :=
  match s with
  | EmptyString => true
  | String c r => negb (is_x c) && no_x r
  end.

(** No character of [s] opens a delimiter of the template language. *)
Fixpoint no_delimiter (s : string) : bool :=
  match s with
  | EmptyString => true
  | String c r => negb (c =? "<")%char && negb (c =? "$")%char && no_delimiter r
  end.

(** The source has a URL and takes the popular-resolutions branch. *)
Definition takes_popular (s : Source) : bool :=
  negb (missing_url s)
  && ((List.length (explicit_sizes (src_sizes s)) =? 0)%nat
      && Lodash.contains w3counter (keywords_of (src_sizes s))).

(** The source has a URL and takes the viewport branch. *)
Definition takes_viewport (s : Source) : bool :=
  negb (missing_url s)
  && negb ((List.length (explicit_sizes (src_sizes s)) =? 0)%nat
           && Lodash.contains w3counter (keywords_of (src_sizes s)))
  && negb (List.length (keywords_of (src_sizes s)) =? 0)%nat.

(** The invocations of the two lookups so far. *)
Definition lookups (st : State) : nat * list (list string) :=
  (getRes_calls st, viewport_calls st).

(** The invocations after the steps of the sources [l]. *)
Definition lookups_after (before : nat * list (list string)) (l : list Source)
    : nat * list (list string) :=
  (fst before + List.length (filter takes_popular l),
   (snd before ++ map (fun s => keywords_of (src_sizes s)) (filter takes_viewport l))%list).

(** ** [_logSuccessMessage] *)

(** The decimal digits of a number, most significant first. *)
Fixpoint digits_of (u : Decimal.uint) : string :=
  match u with
  | Decimal.Nil => EmptyString
  | Decimal.D0 r => String "0" (digits_of r)
  | Decimal.D1 r => String "1" (digits_of r)
  | Decimal.D2 r => String "2" (digits_of r)
  | Decimal.D3 r => String "3" (digits_of r)
  | Decimal.D4 r => String "4" (digits_of r)
  | Decimal.D5 r => String "5" (digits_of r)
  | Decimal.D6 r => String "6" (digits_of r)
  | Decimal.D7 r => String "7" (digits_of r)
  | Decimal.D8 r => String "8" (digits_of r)
  | Decimal.D9 r => String "9" (digits_of r)
  end.

(** What [%d] prints: the number in decimal, [NaN] for [undefined]. *)
Definition percent_d (n : option nat) : string :=
  match n with
  | Some k => digits_of (Nat.to_uint k)
  | None => "NaN"
  end.

(** [n === 1] *)
Definition is_one (n : option nat) : bool :=
  match n with
  | Some 1 => true
  | _ => false
  end.

(** The line that [_logSuccessMessage] prints; [success] is
    [logSymbols.success]. *)
Definition _logSuccessMessage (success : string) (p : PageresInstance) : string :=
  let i := List.length (_sizes p) in
  let s := option_map screenshots (stats p) in
  let u := option_map urls (stats p) in
  newline ++ success ++ " Successfully generated " ++ percent_d (Some i)
  ++ " screenshots from " ++ percent_d u ++ " " ++ (if is_one u then "url" else "urls")
  ++ " and " ++ percent_d s ++ " "
  ++ (if is_one s then "resolution" else "resolutions").

(** ** The model at work *)

Example template_default :
  Lodash.compile "<%= url %>-<%= size %><%= crop %>.png"
  = Some [Lodash.Interp Lodash.PUrl; Lodash.Lit "-"; Lodash.Interp Lodash.PSize;
          Lodash.Interp Lodash.PCrop; Lodash.Lit ".png"].
Proof. reflexivity. Qed.

Example uniq_keeps_first :
  Lodash.uniq ["b"; "a"; "b"; "c"; "a"] = ["b"; "a"; "c"].
Proof. reflexivity. Qed.

Example split_x_size : Js.split_x "1024X768" = ["1024"; "768"].
Proof. reflexivity. Qed.

(** A wrapper that is kept answers its second call from the cache; a new
    wrapper knows nothing. *)
Example memo_kept_and_new :
  Memo.find (Memo.store Memo.memoize ["iphone 5s"] (Success 1)) ["iphone 5s"]
  = Some (Success 1)
  /\ Memo.find (@Memo.memoize nat) ["iphone 5s"] = None.
Proof. split; reflexivity. Qed.

Example sample_protocols :
  map Sample.node_protocol ["https://a.io"; "a.io"; "localhost:3000"; "/tmp/x"]
  = [Some "https:"; None; Some "localhost:"; None].
Proof. reflexivity. Qed.

Example sample_explicit_run :
  let r := run Series Sample.env (Sample.with_sources [Sample.source "example.com" ["1024x768"; "320X480"]]) in
  map stream_filename (_items (self r)) = ["example.com-1024x768.png"; "example.com-320X480.png"]
  /\ map ph_url (spawned r) = ["http://example.com"; "http://example.com"]
  /\ map ph_width (spawned r) = ["1024"; "320"]
  /\ map ph_height (spawned r) = [Some "768"; Some "480"]
  /\ stats (self r) = Some {| screenshots := 2; urls := 1 |}.
Proof. vm_compute. repeat split. Qed.

(** * Properties *)

(** ** Facts on [_.uniq] and [_.difference] *)

Section ListFacts.

Lemma contains_In (v : string) (l : list string) :
  Lodash.contains v l = true <-> In v l.
Proof.
  unfold Lodash.contains. rewrite existsb_exists. split.
  - intros [x [Hin Heq]]. apply String.eqb_eq in Heq. now subst.
  - intros Hin. exists v. split; [assumption | apply String.eqb_refl].
Qed.

Lemma contains_false (v : string) (l : list string) :
  Lodash.contains v l = false <-> ~ In v l.
Proof.
  rewrite <- contains_In. destruct (Lodash.contains v l); split; congruence.
Qed.

Let step := fun (result : list string) (v : string) =>
  if Lodash.contains v result then result else (result ++ [v])%list.

Lemma uniq_fold_In (l acc : list string) (x : string) :
  In x (fold_left step l acc) <-> In x acc \/ In x l.
Proof.
  revert acc. induction l as [|v l IH]; intros acc; simpl.
  - tauto.
  - rewrite IH. unfold step. destruct (Lodash.contains v acc) eqn:Hc.
    + apply contains_In in Hc. split; intros [H|H]; auto.
      destruct H as [H|H]; subst; auto.
    + rewrite in_app_iff. simpl. tauto.
Qed.

Lemma uniq_fold_NoDup (l acc : list string) :
  NoDup acc -> NoDup (fold_left step l acc).
Proof.
  revert acc. induction l as [|v l IH]; intros acc Hnd; simpl.
  - assumption.
  - apply IH. unfold step. destruct (Lodash.contains v acc) eqn:Hc.
    + assumption.
    + apply contains_false in Hc.
      apply NoDup_app; [assumption | repeat constructor; simpl; tauto |].
      intros a Ha [Hb|[]]. subst. contradiction.
Qed.

Lemma uniq_In (l : list string) (x : string) : In x (Lodash.uniq l) <-> In x l.
Proof.
  unfold Lodash.uniq. etransitivity; [apply (uniq_fold_In l [] x)|].
  simpl. tauto.
Qed.

Lemma uniq_NoDup (l : list string) : NoDup (Lodash.uniq l).
Proof. apply (uniq_fold_NoDup l []). constructor. Qed.

End ListFacts.

(** ** The resolution pattern *)

Section Pattern.

Lemma append_empty (s : string) : s ++ "" = s.
Proof. induction s as [|c s IH]; simpl; [reflexivity | now rewrite IH]. Qed.

Lemma span_digits_split (s a b : string) :
  Js.span Js.is_digit s = (a, b) -> s = a ++ b /\ all_digits a = true.
Proof.
  revert a b. induction s as [|c s IH]; intros a b; simpl.
  - intros H. injection H as <- <-. now split.
  - destruct (Js.is_digit c) eqn:Hc.
    + destruct (Js.span Js.is_digit s) as [a' b'] eqn:Hs.
      intros H. injection H as <- <-.
      destruct (IH a' b' eq_refl) as [-> Ha]. simpl. rewrite Hc. now split.
    + intros H. injection H as <- <-. now split.
Qed.

Lemma span_digits_stop (w r : string) (c : ascii) :
  all_digits w = true -> Js.is_digit c = false ->
  Js.span Js.is_digit (w ++ String c r) = (w, String c r).
Proof.
  intros Hw Hc. induction w as [|d w IH]; simpl in *.
  - now rewrite Hc.
  - apply andb_true_iff in Hw as [Hd Hw]. rewrite Hd, (IH Hw). reflexivity.
Qed.

Lemma span_digits_all (h : string) :
  all_digits h = true -> Js.span Js.is_digit h = (h, "").
Proof.
  intros Hh. induction h as [|d h IH]; simpl in *.
  - reflexivity.
  - apply andb_true_iff in Hh as [Hd Hh]. rewrite Hd, (IH Hh). reflexivity.
Qed.

Lemma is_x_not_digit (c : ascii) : is_x c = true -> Js.is_digit c = false.
Proof.
  unfold is_x. intros H. apply orb_true_iff in H as [H|H];
    apply Ascii.eqb_eq in H; subst; reflexivity.
Qed.

(** [is_resolution] accepts the strings made of three or four digits,
    an [x] of either case, and three or four digits. *)
Lemma is_resolution_shape (t : string) :
  is_resolution t = true <->
  exists w c h,
    t = w ++ String c h /\
    all_digits w = true /\ three_or_four w = true /\ is_x c = true /\
    all_digits h = true /\ three_or_four h = true.
Proof.
  unfold is_resolution. split.
  - destruct (Js.span Js.is_digit t) as [w r] eqn:Hw.
    destruct r as [|c r']; [discriminate|].
    destruct (Js.span Js.is_digit r') as [h e] eqn:Hh.
    intros H.
    apply andb_true_iff in H as [H He].
    apply andb_true_iff in H as [H H3h].
    apply andb_true_iff in H as [H3w Hx].
    apply String.eqb_eq in He. subst e.
    apply span_digits_split in Hw as [-> Haw].
    apply span_digits_split in Hh as [-> Hah].
    rewrite append_empty in *. exists w, c, h.
    repeat split; assumption.
  - intros (w & c & h & -> & Haw & Hw & Hc & Hah & Hh).
    rewrite (span_digits_stop w h c Haw (is_x_not_digit c Hc)).
    rewrite (span_digits_all h Hah). rewrite Hw, Hc, Hh. reflexivity.
Qed.

End Pattern.

Example resolution_tokens :
  map is_resolution ["1024x768"; "320X480"; "99x100"; "12345x100"; "1024x768 "; "w3counter"; "a1024x768"]
  = [true; true; false; false; false; false; false].
Proof. reflexivity. Qed.

(** ** The partition of the size tokens *)

Section Partition.

Lemma explicit_sizes_In (tokens : list string) (t : string) :
  In t (explicit_sizes tokens) <-> In t tokens /\ is_resolution t = true.
Proof. unfold explicit_sizes. rewrite uniq_In. apply filter_In. Qed.

Lemma keywords_are_the_rest (tokens : list string) :
  keywords_of tokens = filter (fun t => negb (is_resolution t)) tokens.
Proof.
  unfold keywords_of, Lodash.difference. apply filter_ext_in.
  intros t Hin. f_equal.
  destruct (is_resolution t) eqn:Hr.
  - apply contains_In. apply explicit_sizes_In. now split.
  - apply contains_false. rewrite explicit_sizes_In. intros [_ H]. congruence.
Qed.

End Partition.

(** ** What the job loops do to the state *)

Section JobLoops.

Variable E : Env.

Lemma add_jobs_nil (st : State) : add_jobs [] [] st = st.
Proof.
  destruct st as [p sp g v r c]. destruct p. unfold add_jobs. simpl.
  now rewrite !app_nil_r.
Qed.

Lemma add_jobs_add_jobs (a c : list string) (b d : list Stream) (st : State) :
  add_jobs a b (add_jobs c d st) = add_jobs (c ++ a) (d ++ b) st.
Proof.
  unfold add_jobs. simpl. now rewrite map_app, !app_assoc.
Qed.

Lemma push_size_add_jobs (s : string) (st : State) :
  push_size s st = add_jobs [s] [] st.
Proof.
  destruct st as [p sp g v r c]. unfold add_jobs, push_size, with_self. simpl.
  now rewrite !app_nil_r.
Qed.

Lemma generate_compiled (url sz : string) (o : Options)
    (chunks : list Lodash.Chunk) (st : State) :
  Lodash.compile (template_text o) = Some chunks ->
  _generate E url sz o st
  = (Some (stream_of E url o chunks sz), log_spawn (phantom_options E url sz o) st).
Proof.
  intros Hc. unfold _generate, filename_of, Lodash.template. rewrite Hc.
  reflexivity.
Qed.

Lemma generate_each_compiled (record : bool) (url : string) (o : Options)
    (chunks : list Lodash.Chunk) (sizes : list string) (st : State) :
  Lodash.compile (template_text o) = Some chunks ->
  generate_each E record url o sizes st
  = (add_jobs (if record then sizes else []) (map (stream_of E url o chunks) sizes) st,
     true).
Proof.
  intros Hc. revert st. induction sizes as [|s rest IH]; intros st.
  - simpl. destruct record; now rewrite add_jobs_nil.
  - cbn [generate_each]. rewrite (generate_compiled url s o chunks _ Hc).
    rewrite IH. f_equal.
    destruct st as [p sp g v r c]. destruct p. destruct record;
      unfold add_jobs, push_item, push_size, log_spawn, with_self; simpl;
      rewrite <- ?app_assoc; reflexivity.
Qed.

Lemma push_sizes_add_jobs (res : list Viewport) (st : State) :
  fold_left (fun s r => push_size (size r) s) res st
  = add_jobs (map size res) [] st.
Proof.
  revert st. induction res as [|r res IH]; intros st; simpl.
  - now rewrite add_jobs_nil.
  - rewrite IH, push_size_add_jobs, add_jobs_add_jobs. reflexivity.
Qed.

End JobLoops.

(** ** Size resolution *)

(** C4: the tokens that match the resolution pattern are kept in the
    explicit-size list without repetition and as they are; the keyword
    list is the token list without the elements of the explicit-size
    list, which are the tokens that do not match; and the token list
    ["1024x768"; "1024x768"] resolves to one size and one job. *)
Theorem C4_partition_of_tokens :
  forall tokens : list string,
    NoDup (explicit_sizes tokens)
    /\ (forall t, In t (explicit_sizes tokens) <-> In t tokens /\ is_resolution t = true)
    /\ (forall t, In t (keywords_of tokens) <-> In t tokens /\ ~ In t (explicit_sizes tokens))
    /\ keywords_of tokens = filter (fun t => negb (is_resolution t)) tokens
    /\ explicit_sizes ["1024x768"; "1024x768"] = ["1024x768"]
    /\ keywords_of ["1024x768"; "1024x768"] = []
    /\ (forall d,
          let r := run d Sample.env
                     (Sample.with_sources [Sample.source "example.com" ["1024x768"; "1024x768"]]) in
          _sizes (self r) = ["1024x768"]
          /\ map ph_width (spawned r) = ["1024"]
          /\ map stream_filename (_items (self r)) = ["example.com-1024x768.png"]).
Proof.
  intros tokens. split; [apply uniq_NoDup|].
  split; [apply explicit_sizes_In|].
  split.
  - intros t. unfold keywords_of, Lodash.difference. rewrite filter_In.
    rewrite negb_true_iff, contains_false. tauto.
  - split; [apply keywords_are_the_rest|].
    split; [reflexivity|]. split; [reflexivity|].
    intros d. destruct d; vm_compute; repeat split.
Qed.

(** C1 (amended): for a source with a URL whose tokens hold no explicit
    size, the popular-resolutions branch is taken exactly when the keyword
    list contains the marker, whatever else it holds; on that branch
    [get-res] is invoked once, the sizes recorded and the jobs generated are
    those of its answer, in its order, and [viewport-list] is not
    invoked. *)
Theorem C1_popular_branch :
  forall (E : Env) (st : State) (s : Source) (url : string)
         (res : list Resolution) (chunks : list Lodash.Chunk),
    src_url s = Some url ->
    Js.truthy url = true ->
    explicit_sizes (src_sizes s) = [] ->
    getRes E = Success res ->
    Lodash.compile (template_text (merged st s)) = Some chunks ->
    let o := merged st s in
    let st1 := fst (iterator E st s) in
    let st2 := fst (deliver E (AwaitResolution url o) st1) in
    (snd (iterator E st s) = Await (AwaitResolution url o)
     <-> In w3counter (keywords_of (src_sizes s)))
    /\ (In w3counter (keywords_of (src_sizes s)) ->
        getRes_calls st1 = S (getRes_calls st)
        /\ snd (deliver E (AwaitResolution url o) st1) = Next
        /\ _sizes (self st2) = (_sizes (self st) ++ map item res)%list
        /\ _items (self st2)
           = (_items (self st) ++ map (stream_of E url o chunks) (map item res))%list
        /\ viewport_calls st2 = viewport_calls st
        /\ getRes_calls st2 = S (getRes_calls st)).
Proof.
  intros E st s url res chunks Hurl Htruthy Hsizes Hres Hc o st1 st2.
  assert (Hit : iterator E st s
                = if Lodash.contains w3counter (keywords_of (src_sizes s))
                  then (log_getRes (push_url url st), Await (AwaitResolution url o))
                  else if negb (List.length (keywords_of (src_sizes s)) =? 0)%nat
                       then (log_viewport (keywords_of (src_sizes s)) (push_url url st),
                             Await (AwaitViewport url [] (keywords_of (src_sizes s)) o))
                       else (push_url url st, Settled Next)).
  { unfold iterator. rewrite Hurl, Htruthy, Hsizes. cbn [negb List.length Nat.eqb andb].
    destruct (Lodash.contains w3counter (keywords_of (src_sizes s))); [reflexivity|].
    destruct (negb (List.length (keywords_of (src_sizes s)) =? 0)%nat); reflexivity. }
  split.
  - rewrite Hit, <- contains_In.
    destruct (Lodash.contains w3counter (keywords_of (src_sizes s))).
    + simpl. tauto.
    + destruct (negb (List.length (keywords_of (src_sizes s)) =? 0)%nat);
        simpl; split; intros H; discriminate.
  - intros Hin. apply contains_In in Hin.
    subst st2 st1. rewrite Hit, Hin. cbn [fst snd deliver].
    unfold _resolution_cb. rewrite Hres.
    fold o in Hc. rewrite (generate_each_compiled E true url o chunks _ _ Hc).
    unfold ended. cbn [fst snd]. simpl. repeat split; reflexivity.
Qed.

(** C5: for a source with a URL and a non-empty keyword list that does
    not take the popular-resolutions branch, [viewport-list] is invoked
    with the keyword list; the sizes of its answer are appended after the
    explicit sizes, the union loses its repetitions, and one job is
    generated, one subprocess spawned, for each element of what remains. *)
Theorem C5_viewport_branch :
  forall (E : Env) (st : State) (s : Source) (url : string)
         (res : list Viewport) (chunks : list Lodash.Chunk),
    src_url s = Some url ->
    Js.truthy url = true ->
    keywords_of (src_sizes s) <> [] ->
    explicit_sizes (src_sizes s) <> [] \/ ~ In w3counter (keywords_of (src_sizes s)) ->
    viewport E (keywords_of (src_sizes s)) = Success res ->
    Lodash.compile (template_text (merged st s)) = Some chunks ->
    let o := merged st s in
    let sizes := explicit_sizes (src_sizes s) in
    let keywords := keywords_of (src_sizes s) in
    let union := Lodash.uniq (sizes ++ map size res) in
    let st2 := fst (deliver E (AwaitViewport url sizes keywords o) (fst (iterator E st s))) in
    snd (iterator E st s) = Await (AwaitViewport url sizes keywords o)
    /\ viewport_calls (fst (iterator E st s)) = (viewport_calls st ++ [keywords])%list
    /\ snd (deliver E (AwaitViewport url sizes keywords o) (fst (iterator E st s))) = Next
    /\ _items (self st2) = (_items (self st) ++ map (stream_of E url o chunks) union)%list
    /\ spawned st2 = (spawned st ++ map (fun sz => phantom_options E url sz o) union)%list
    /\ List.length (_items (self st2)) = List.length (_items (self st)) + List.length union
    /\ NoDup union
    /\ (forall x, In x union <-> In x sizes \/ In x (map size res))
    /\ viewport_calls st2 = (viewport_calls st ++ [keywords])%list
    /\ getRes_calls st2 = getRes_calls st.
Proof.
  intros E st s url res chunks Hurl Htruthy Hkw Hbranch Hres Hc o sizes keywords union st2.
  assert (Hit : iterator E st s
                = (log_viewport keywords (push_url url st),
                   Await (AwaitViewport url sizes keywords o))).
  { unfold iterator. rewrite Hurl, Htruthy. cbn [negb]. fold sizes keywords.
    assert (Hcond : (List.length sizes =? 0)%nat && Lodash.contains w3counter keywords = false).
    { destruct Hbranch as [Hs|Hk].
      - subst sizes. destruct (explicit_sizes (src_sizes s)); [congruence | reflexivity].
      - apply contains_false in Hk. fold keywords in Hk. rewrite Hk.
        apply andb_false_r. }
    rewrite Hcond.
    destruct keywords as [|k ks] eqn:Hk; [contradiction|]. reflexivity. }
  assert (Hdel : deliver E (AwaitViewport url sizes keywords o)
                   (log_viewport keywords (push_url url st))
                 = (add_jobs [] (map (stream_of E url o chunks) union)
                      (add_jobs (map size res) []
                         (log_viewport keywords (push_url url st))), Next)).
  { cbn [deliver]. fold keywords in Hres. rewrite Hres. unfold _viewport_cb.
    rewrite push_sizes_add_jobs.
    fold o in Hc. rewrite (generate_each_compiled E false url o chunks _ _ Hc).
    reflexivity. }
  subst st2. rewrite Hit. cbn [fst snd]. rewrite Hdel. cbn [fst snd].
  split; [reflexivity|]. split; [reflexivity|]. split; [reflexivity|].
  split; [simpl; now rewrite app_nil_r|].
  split.
  { simpl. rewrite app_nil_r, map_map. reflexivity. }
  split.
  { simpl. rewrite !length_app, length_map. simpl. lia. }
  split; [apply uniq_NoDup|].
  split.
  { intros x. unfold union. rewrite uniq_In, in_app_iff. tauto. }
  split; reflexivity.
Qed.

(** The popular-resolutions branch is taken although the keyword list is
    not the single marker: the device keyword next to it is dropped. *)
Lemma C1_counterexample :
  let s := Sample.source "example.com" ["w3counter"; "iphone 5s"] in
  let st := initial (Sample.with_sources [s]) in
  explicit_sizes (src_sizes s) = []
  /\ viewport_calls (run Series Sample.env (Sample.with_sources [s])) = []
  /\ ~ (snd (iterator Sample.env st s)
        = Await (AwaitResolution "example.com" (merged st s))
        <-> keywords_of (src_sizes s) = [w3counter]).
Proof.
  intros s st. split; [reflexivity|]. split; [reflexivity|].
  intros [H _]. specialize (H eq_refl). vm_compute in H. discriminate H.
Qed.

Lemma C1_popular_branch_witness :
  let s := Sample.source "example.com" ["w3counter"] in
  let st := initial (Sample.with_sources [s]) in
  let o := merged st s in
  snd (iterator Sample.env st s) = Await (AwaitResolution "example.com" o)
  /\ _sizes (self (fst (deliver Sample.env (AwaitResolution "example.com" o)
                          (fst (iterator Sample.env st s)))))
     = ["1366x768"; "1920x1080"; "1366x768"].
Proof.
  intros s st o.
  pose proof (C1_popular_branch Sample.env st s "example.com"
                [{| item := "1366x768"; count := 3 |};
                 {| item := "1920x1080"; count := 2 |};
                 {| item := "1366x768"; count := 1 |}]
                [Lodash.Interp Lodash.PUrl; Lodash.Lit "-"; Lodash.Interp Lodash.PSize;
                 Lodash.Interp Lodash.PCrop; Lodash.Lit ".png"]
                eq_refl eq_refl eq_refl eq_refl eq_refl) as [Hiff Hon].
  assert (Hin : In w3counter (keywords_of (src_sizes s))) by (left; reflexivity).
  split.
  - apply Hiff. exact Hin.
  - destruct (Hon Hin) as (_ & _ & Hsizes & _). exact Hsizes.
Defined.

Lemma C5_viewport_branch_witness :
  let s := Sample.source "example.com" ["320x568"; "1024x768"; "iphone 5s"] in
  let st := initial (Sample.with_sources [s]) in
  let o := merged st s in
  map ph_width
    (spawned (fst (deliver Sample.env
                     (AwaitViewport "example.com" ["320x568"; "1024x768"] ["iphone 5s"] o)
                     (fst (iterator Sample.env st s)))))
  = ["320"; "1024"].
Proof.
  intros s st o.
  assert (H3 : keywords_of (src_sizes s) <> []) by (vm_compute; discriminate).
  assert (H4 : explicit_sizes (src_sizes s) <> []) by (vm_compute; discriminate).
  pose proof (C5_viewport_branch Sample.env st s "example.com"
                [{| name := "iphone 5s"; size := "320x568" |}]
                [Lodash.Interp Lodash.PUrl; Lodash.Lit "-"; Lodash.Interp Lodash.PSize;
                 Lodash.Interp Lodash.PCrop; Lodash.Lit ".png"]
                eq_refl eq_refl H3 (or_introl H4) eq_refl eq_refl) as H.
  destruct H as (_ & _ & _ & _ & Hsp & _).
  exact (eq_trans (f_equal (map ph_width) Hsp) eq_refl).
Defined.

(** ** Job generation: the URL and the filename *)

Section Prefixes.

Lemma prefix_drop (p s : string) :
  Js.starts_with p s = true -> p ++ Js.drop (String.length p) s = s.
Proof.
  unfold Js.starts_with. revert s. induction p as [|a p IH]; intros s H.
  - reflexivity.
  - destruct s as [|b s]; simpl in *; [discriminate|].
    destruct (ascii_dec a b) as [->|]; [|discriminate].
    f_equal. now apply IH.
Qed.

Lemma starts_with_append (p s : string) : Js.starts_with p (p ++ s) = true.
Proof.
  unfold Js.starts_with. induction p as [|a p IH]; simpl.
  - now destruct s.
  - destruct (ascii_dec a a); [assumption | congruence].
Qed.

Lemma drop_append (p s : string) : Js.drop (String.length p) (p ++ s) = s.
Proof. induction p as [|a p IH]; simpl; [reflexivity | assumption]. Qed.

Lemma trim_left_cons (c : ascii) (r : string) :
  Js.is_space c = false -> Js.trim_left (String c r) = String c r.
Proof. intros Hc. simpl. now rewrite Hc. Qed.

Lemma trim_right_cons (c : ascii) (r : string) :
  Js.is_space c = false -> Js.trim_right (String c r) = String c (Js.trim_right r).
Proof.
  intros Hc. simpl. destruct (Js.trim_right r); [now rewrite Hc | reflexivity].
Qed.

(** On the sample host a string that starts with [http://] has a
    protocol. *)
Lemma sample_http_protocol (s : string) :
  has_protocol Sample.env ("http://" ++ s) = true.
Proof.
  unfold has_protocol. cbn [url_protocol Sample.env].
  unfold Sample.node_protocol, Js.trim.
  change ("http://" ++ s)
    with (String "h" (String "t" (String "t" (String "p" (String ":" (String "/" (String "/" s))))))).
  rewrite trim_left_cons by reflexivity.
  rewrite !trim_right_cons by reflexivity.
  reflexivity.
Qed.

End Prefixes.

Example trim_both_ends :
  Js.trim (String (ascii_of_nat 9) "  a b  " ++ newline) = "a b".
Proof. reflexivity. Qed.

(** C6: the URL handed to the renderer.  For an existing local path it is
    the file URL of the path; otherwise [http://] is put before a string
    that starts with [localhost], and then before a string in which
    [url.parse] finds no protocol; a string in which it finds one stays as
    it is.  The hypothesis is the part of [url.parse] this relies on: it
    finds a protocol in a string that starts with [http://]. *)
Theorem C6_url_normalization :
  forall (E : Env) (url : string),
    (forall s, has_protocol E ("http://" ++ s) = true) ->
    (existsSync E url = true -> normalize E url = fileUrl E url)
    /\ (existsSync E url = false -> Js.starts_with "localhost" url = true ->
        normalize E url = "http://" ++ url)
    /\ (existsSync E url = false -> Js.starts_with "localhost" url = false ->
        has_protocol E url = false -> normalize E url = "http://" ++ url)
    /\ (existsSync E url = false -> Js.starts_with "localhost" url = false ->
        has_protocol E url = true -> normalize E url = url)
    /\ (forall sz o st i st',
          _generate E url sz o st = (Some i, st') ->
          ph_url (stream_job i) = normalize E url
          /\ spawned st' = (spawned st ++ [stream_job i])%list).
Proof.
  intros E url Hhttp. unfold normalize.
  split; [intros ->; reflexivity|].
  split; [intros -> ->; now rewrite Hhttp|].
  split; [intros -> -> ->; reflexivity|].
  split; [intros -> -> ->; reflexivity|].
  intros sz o st i st'. unfold _generate.
  destruct (filename_of E url sz o); [|discriminate].
  cbn. intros H. injection H as <- <-. split; reflexivity.
Qed.

Lemma C6_url_normalization_witness :
  normalize Sample.env "localhost:3000" = "http://localhost:3000"
  /\ normalize Sample.env "example.com/a" = "http://example.com/a"
  /\ normalize Sample.env "https://example.com" = "https://example.com"
  /\ normalize Sample.env "index.html" = "file:///home/user/index.html".
Proof.
  split.
  - exact (proj1 (proj2 (C6_url_normalization Sample.env "localhost:3000"
                           sample_http_protocol)) eq_refl eq_refl).
  - repeat split; reflexivity.
Defined.

(** C7: with the default template, the URL [example.com] and the size
    [1024x768] give [example.com-1024x768.png], and
    [example.com-1024x768-cropped.png] when cropping is on; in general the
    name is the slug of the URL without a leading [www.], [http://www.] or
    [https://www.], then a dash, the size, [-cropped] when cropping is on,
    and [.png].  The hypotheses say of the host that [example.com] is no
    local file and carries no protocol, and of [slugify-url] that it drops
    the protocol of [http://example.com]. *)
Theorem C7_default_filename :
  forall E : Env,
    existsSync E "example.com" = false ->
    has_protocol E "example.com" = false ->
    slugifyUrl E "http://example.com" = "example.com" ->
    filename_of E "example.com" "1024x768" (options (Pageres E true None))
    = Some "example.com-1024x768.png"
    /\ filename_of E "example.com" "1024x768"
         (assign (options (Pageres E true None))
                 (Some {| filename := None; crop := Some true; delay := None;
                          cookies := None; passthrough := [] |}))
       = Some "example.com-1024x768-cropped.png"
    /\ (forall url sz o,
          filename o = Some default_filename ->
          filename_of E url sz o
          = Some (strip_www (slugifyUrl E (if existsSync E url then url else normalize E url))
                  ++ "-" ++ sz ++ (if is_true (crop o) then "-cropped" else "") ++ ".png"))
    /\ (forall s, strip_www ("www." ++ s) = s
                  /\ strip_www ("http://www." ++ s) = s
                  /\ strip_www ("https://www." ++ s) = s).
Proof.
  intros E Hfile Hproto Hslug.
  assert (Hgen : forall url sz o,
            filename o = Some default_filename ->
            filename_of E url sz o
            = Some (strip_www (slugifyUrl E (if existsSync E url then url else normalize E url))
                    ++ "-" ++ sz ++ (if is_true (crop o) then "-cropped" else "") ++ ".png")).
  { intros url sz o Hf. unfold filename_of, Lodash.template, template_text.
    rewrite Hf. reflexivity. }
  assert (Hnorm : normalize E "example.com" = "http://example.com").
  { unfold normalize. rewrite Hfile. cbn [Js.starts_with String.prefix].
    cbn. now rewrite Hproto. }
  split.
  { rewrite Hgen by reflexivity. rewrite Hfile, Hnorm, Hslug. reflexivity. }
  split.
  { rewrite Hgen by reflexivity. rewrite Hfile, Hnorm, Hslug. reflexivity. }
  split; [exact Hgen|].
  intros s. unfold strip_www. repeat split.
  - change ("www." ++ s) with (String "w" (String "w" (String "w" (String "." s)))).
    cbn. now destruct s.
  - rewrite (starts_with_append "http://www." s).
    exact (drop_append "http://www." s).
  - change (Js.starts_with "http://www." ("https://www." ++ s)) with false.
    rewrite (starts_with_append "https://www." s).
    exact (drop_append "https://www." s).
Qed.

Lemma C7_default_filename_witness :
  filename_of Sample.env "example.com" "1024x768" (options (Pageres Sample.env true None))
  = Some "example.com-1024x768.png".
Proof.
  exact (proj1 (C7_default_filename Sample.env eq_refl eq_refl eq_refl)).
Defined.

(** ** The diagnostic channel *)

Lemma len_zero (s : string) : (Js.len s =? 0)%nat = true <-> s = "".
Proof. destruct s; simpl; split; intros H; try reflexivity; discriminate. Qed.

(** [Js.includes] finds the needle wherever it stands. *)
Lemma includes_somewhere (needle hay : string) :
  Js.includes needle hay = true <-> exists a b, hay = a ++ needle ++ b.
Proof.
  induction hay as [|c r IH].
  - cbn [Js.includes]. split.
    + intros H. exists "", "". cbn.
      rewrite <- (prefix_drop needle "" H) at 1. cbn.
      destruct needle; [reflexivity | discriminate H].
    + intros (a & b & H). destruct a; [|discriminate].
      destruct needle; [reflexivity | discriminate].
  - cbn [Js.includes]. rewrite orb_true_iff, IH. split.
    + intros [H | (a & b & ->)].
      * exists "", (Js.drop (String.length needle) (String c r)).
        symmetry. exact (prefix_drop needle _ H).
      * exists (String c a), b. reflexivity.
    + intros (a & b & H). destruct a as [|d a].
      * left. cbn in H. rewrite H. apply starts_with_append.
      * right. cbn in H. injection H as _ ->. now exists a, b.
Qed.

(** C8 (amended): the listener works on the chunks of text that the
    diagnostic channel delivers, not on lines.  A chunk that holds the
    start-up banner of the engine anywhere is dropped, even when it starts
    with [WARN: ]; otherwise a chunk that starts with [WARN: ] becomes a
    [warn] event whose payload is all the rest of the chunk, which the
    save stage emits again without failing the job; otherwise a chunk that
    is not blank becomes an [error] event that carries the chunk; a blank
    chunk gives no event.  So the chunk [WARN: slow page] gives the
    payload [slow page]. *)
Theorem C8_diagnostic_lines :
  forall data : string,
    (Js.includes " phantomjs[" data = true -> on_stderr data = None)
    /\ (Js.includes " phantomjs[" data = false ->
        Js.starts_with "WARN: " data = true ->
        exists payload,
          data = "WARN: " ++ payload
          /\ on_stderr data = Some (Warn payload)
          /\ _save_listener (Warn payload) = EmitWarn payload)
    /\ (Js.includes " phantomjs[" data = false ->
        Js.starts_with "WARN: " data = false ->
        Js.trim data <> "" ->
        on_stderr data = Some (Error data)
        /\ _save_listener (Error data) = FailSave data)
    /\ (Js.includes " phantomjs[" data = false ->
        Js.starts_with "WARN: " data = false ->
        Js.trim data = "" ->
        on_stderr data = None)
    /\ on_stderr "WARN: slow page" = Some (Warn "slow page")
    /\ _save_listener (Warn "slow page") = EmitWarn "slow page".
Proof.
  intros data. unfold on_stderr.
  split; [intros ->; reflexivity|].
  split.
  { intros -> Hw. rewrite Hw. exists (Js.drop 6 data).
    split; [symmetry; exact (prefix_drop "WARN: " data Hw)|]. split; reflexivity. }
  split.
  { intros -> -> Hne.
    destruct (Js.len (Js.trim data) =? 0)%nat eqn:Hl.
    - apply len_zero in Hl. contradiction.
    - split; reflexivity. }
  split.
  { intros -> -> He. rewrite He. reflexivity. }
  split; reflexivity.
Qed.

(** A chunk of two lines, a warning and an error: read line by line it
    gives a warning [a] and an error; the listener emits one warning that
    carries both lines and their line feeds, and no error.  Likewise the
    line [WARN: slow page] that comes with its line feed gives a payload
    that ends with the line feed. *)
Lemma C8_counterexample :
  let chunk := "WARN: a" ++ newline ++ "ReferenceError: boom" ++ newline in
  spec_lines chunk = ["WARN: a"; "ReferenceError: boom"; ""]
  /\ spec_on_stderr chunk = [Warn "a"; Error "ReferenceError: boom"]
  /\ emitted chunk = [Warn ("a" ++ newline ++ "ReferenceError: boom" ++ newline)]
  /\ emitted ("WARN: slow page" ++ newline) = [Warn ("slow page" ++ newline)]
  /\ ~ (forall line ev,
          In line (spec_lines chunk) ->
          spec_line_event line = Some ev ->
          In ev (emitted chunk)).
Proof.
  intros chunk. split; [reflexivity|]. split; [reflexivity|].
  split; [reflexivity|]. split; [reflexivity|].
  intros H.
  specialize (H "ReferenceError: boom" (Error "ReferenceError: boom")
                (or_intror (or_introl eq_refl)) eq_refl).
  destruct H as [H | []]. discriminate H.
Qed.

Example stderr_chunks :
  map on_stderr
      ["2014-07-25 12:00:00.000 phantomjs[123:456] CoreText performance note";
       "WARN: slow page"; "ReferenceError: x is not defined"; "  " ++ newline;
       "WARN: x phantomjs[1]"; "warn: lower case"]
  = [None; Some (Warn "slow page"); Some (Error "ReferenceError: x is not defined");
     None; None; Some (Error "warn: lower case")].
Proof. reflexivity. Qed.

(** ** The constructor *)

(** C10: called without [new], the constructor returns the instance that
    [new Pageres()] gives, whatever options it was called with: the
    default filename template and no cookie.  Called with [new], it keeps
    the options. *)
Theorem C10_call_without_new :
  forall (E : Env) (opts : option Options),
    Pageres E false opts = Pageres E true None
    /\ filename (options (Pageres E false opts)) = Some default_filename
    /\ cookies (options (Pageres E false opts)) = Some []
    /\ crop (options (Pageres E false opts)) = None
    /\ (forall f c,
          Js.truthy f = true ->
          let given := {| filename := Some f; crop := Some true; delay := None;
                          cookies := Some [CookieString c]; passthrough := [] |} in
          filename (options (Pageres E true (Some given))) = Some f
          /\ crop (options (Pageres E true (Some given))) = Some true
          /\ cookies (options (Pageres E true (Some given)))
             = Some [CookieObject (parseCookiePhantomjs E c)]).
Proof.
  intros E opts. repeat split; try reflexivity.
  cbn. now rewrite H.
Qed.

(** ** Runs *)

Section Frames.

Variable E : Env.

Lemma frame_generate_each (record : bool) (url : string) (o : Options)
    (sizes : list string) (st : State) :
  frame (fst (generate_each E record url o sizes st)) = frame st.
Proof.
  revert st. induction sizes as [|s rest IH]; intros st; [reflexivity|].
  cbn [generate_each]. unfold _generate.
  destruct (filename_of E url s o).
  - cbn. rewrite IH. destruct record; reflexivity.
  - destruct record; reflexivity.
Qed.

Lemma frame_push_sizes (res : list Viewport) (st : State) :
  frame (fold_left (fun s r => push_size (size r) s) res st) = frame st.
Proof.
  revert st. induction res as [|r res IH]; intros st; simpl; [reflexivity|].
  now rewrite IH.
Qed.

Lemma ended_not_stalled (r : State * bool) : snd (ended r) <> Stalled.
Proof. unfold ended. destruct (snd r); simpl; discriminate. Qed.

Lemma frame_deliver (p : Pending) (st : State) :
  frame (fst (deliver E p st)) = frame st /\ snd (deliver E p st) <> Stalled.
Proof.
  destruct p as [url o | url sizes keywords o]; cbn [deliver].
  - unfold _resolution_cb. destruct (getRes E) as [err|res].
    + split; [reflexivity | discriminate].
    + split; [|apply ended_not_stalled].
      unfold ended. cbn [fst]. now rewrite frame_generate_each.
  - unfold _viewport_cb. destruct (viewport E keywords) as [err|res].
    + split; [reflexivity | discriminate].
    + split; [|apply ended_not_stalled].
      unfold ended. cbn [fst]. now rewrite frame_generate_each, frame_push_sizes.
Qed.

(** A source without URL: [cb] gets the error, [next] is not called,
    and the state is otherwise as it was. *)
Lemma iterator_missing_url (st : State) (s : Source) :
  missing_url s = true ->
  iterator E st s = (report (CbError "URL required") st, Settled Stalled).
Proof.
  unfold missing_url, iterator. destruct (src_url s) as [u|]; [|reflexivity].
  intros ->. reflexivity.
Qed.

(** A source with a URL: the step ends with [next], sends a lookup or
    raises. *)
Lemma iterator_with_url (st : State) (s : Source) :
  missing_url s = false ->
  frame (fst (iterator E st s)) = frame st
  /\ snd (iterator E st s) <> Settled Stalled.
Proof.
  unfold missing_url, iterator. destruct (src_url s) as [u|]; [|discriminate].
  intros Hu. apply negb_false_iff in Hu. rewrite Hu. cbn [negb].
  destruct ((List.length (explicit_sizes (src_sizes s)) =? 0)%nat
            && Lodash.contains w3counter (keywords_of (src_sizes s))).
  { split; [reflexivity | discriminate]. }
  destruct (negb (List.length (keywords_of (src_sizes s)) =? 0)%nat).
  { split; [reflexivity | discriminate]. }
  match goal with
  | |- context [generate_each E true u ?o ?l ?s0] =>
      pose proof (frame_generate_each true u o l s0) as Hf;
      destruct (generate_each E true u o l s0) as [st2 ok]
  end.
  cbn in *. split; [exact Hf|]. destruct ok; discriminate.
Qed.

End Frames.

Ltac frame_eq H :=
  unfold frame in H; cbn [fst snd] in H;
  let Hr := fresh "Hreports" in
  let Hc := fresh "Hcrashed" in
  let Hs := fresh "Hstats" in
  injection H as Hr Hc Hs.

Section Failure.

Variable E : Env.

Lemma errors_snoc (l : list Report) (err : string) :
  forallb is_error l = true -> forallb is_error (l ++ [CbError err]) = true.
Proof. intros H. now rewrite forallb_app, H. Qed.

Lemma snoc_not_nil {A : Type} (l : list A) (x : A) : (l ++ [x])%list <> [].
Proof. destruct l; discriminate. Qed.

Lemma series_tail (rest : list Source) (st st1 : State) (out : Outcome) :
  frame st1 = frame st ->
  out <> Stalled ->
  forallb is_error (reports st) = true ->
  (forall st', forallb is_error (reports st') = true ->
               failed_from st' (each_series E rest st')) ->
  failed_from st
    match out with
    | Next => each_series E rest st1
    | NextError err => report (CbError err) st1
    | Stalled => st1
    | Threw => crash st1
    end.
Proof.
  intros Hf Hns HA IH. frame_eq Hf.
  destruct out as [|err| |]; [| | contradiction |].
  - destruct (IH st1) as (H1 & H2 & H3); [now rewrite Hreports|].
    repeat split; [assumption | assumption | congruence].
  - repeat split; cbn.
    + rewrite Hreports. now apply errors_snoc.
    + left. apply snoc_not_nil.
    + assumption.
  - repeat split; cbn.
    + now rewrite Hreports.
    + now right.
    + assumption.
Qed.

Lemma series_fails (l : list Source) :
  (exists bad, In bad l /\ missing_url bad = true) ->
  forall st, forallb is_error (reports st) = true ->
             failed_from st (each_series E l st).
Proof.
  induction l as [|s rest IH]; intros (bad & Hin & Hbad) st HA.
  - destruct Hin.
  - cbn [each_series]. destruct (missing_url s) eqn:Hs.
    + rewrite (iterator_missing_url E st s Hs).
      repeat split; cbn.
      * now apply errors_snoc.
      * left. apply snoc_not_nil.
    + assert (Hrest : exists b, In b rest /\ missing_url b = true).
      { exists bad. split; [|assumption].
        destruct Hin as [<-|Hin]; [congruence | assumption]. }
      destruct (iterator_with_url E st s Hs) as [Hf Hns].
      destruct (iterator E st s) as [st1 [out|p]]; cbn [fst snd] in Hf, Hns.
      * apply series_tail; auto. intros ->. now apply Hns.
      * destruct (frame_deliver E p st1) as [Hf2 Hns2].
        destruct (deliver E p st1) as [st2 out]. cbn [fst snd] in Hf2, Hns2.
        apply series_tail; auto. congruence.
Qed.

(** The concurrent bookkeeping, as long as the count cannot reach the
    length of the array. *)
Lemma callback_short (len : nat) (out : Outcome) (lp : Loop) (st : State) :
  S (completed lp) <> len ->
  forallb is_error (reports st) = true ->
  forallb is_error (reports (snd (callback len out lp st))) = true
  /\ stats (self (snd (callback len out lp st))) = stats (self st)
  /\ (reports st <> [] -> reports (snd (callback len out lp st)) <> [])
  /\ completed (fst (callback len out lp st)) <= S (completed lp).
Proof.
  intros Hlen HA. unfold callback. apply Nat.eqb_neq in Hlen.
  destruct out as [|err| |].
  - destruct (failed lp); cbv zeta; rewrite ?Hlen; cbn [fst snd completed];
      repeat split; auto.
  - destruct (failed lp); cbn; repeat split; auto.
    + now apply errors_snoc.
    + intros _. apply snoc_not_nil.
  - cbn. repeat split; auto.
  - cbn. repeat split; auto.
Qed.

Lemma start_all_fails (len : nat) (l : list Source) :
  forall (lp : Loop) (st : State) (waiting : list Pending),
    forallb is_error (reports st) = true ->
    completed lp + List.length waiting + List.length l <= len ->
    ((exists bad, In bad l /\ missing_url bad = true)
     \/ (reports st <> []
         /\ completed lp + List.length waiting + List.length l < len)) ->
    let r := start_all E len l lp st waiting in
    forallb is_error (reports (snd (fst r))) = true
    /\ stats (self (snd (fst r))) = stats (self st)
    /\ (crashed (snd (fst r)) = true
        \/ (reports (snd (fst r)) <> []
            /\ completed (fst (fst r)) + List.length (snd r) < len)).
Proof.
  induction l as [|s rest IH]; intros lp st waiting HA HB HC.
  - cbn. destruct HC as [(bad & [] & _) | [Hne Hlt]].
    repeat split; auto. right. split; [assumption | cbn in Hlt; lia].
  - cbn [start_all]. destruct (missing_url s) eqn:Hs.
    + rewrite (iterator_missing_url E st s Hs). cbn [callback].
      destruct (crashed (report (CbError "URL required") st)) eqn:Hcr.
      * cbn [fst snd]. repeat split; cbn; auto. now apply errors_snoc.
      * destruct (IH lp (report (CbError "URL required") st) waiting)
          as (R1 & R2 & R3).
        -- now apply errors_snoc.
        -- cbn in HB |- *. lia.
        -- right. split; [apply snoc_not_nil | cbn in HB |- *; lia].
        -- repeat split; [exact R1 | exact R2 | exact R3].
    + assert (Hrest : (exists bad, In bad (s :: rest) /\ missing_url bad = true) ->
                      exists b, In b rest /\ missing_url b = true).
      { intros (bad & Hin & Hbad). exists bad. split; [|assumption].
        destruct Hin as [<-|Hin]; [congruence | assumption]. }
      destruct (iterator_with_url E st s Hs) as [Hf _].
      destruct (iterator E st s) as [st1 [out|p]]; cbn [fst snd] in Hf;
        frame_eq Hf.
      * assert (Hlen : S (completed lp) <> len).
        { intros Heq. cbn in HB. destruct HC as [Hb | [_ Hlt]].
          - destruct (Hrest Hb) as (b & Hin & _).
            destruct rest; [destruct Hin | cbn in HB; lia].
          - cbn in Hlt. lia. }
        assert (HA1 : forallb is_error (reports st1) = true) by now rewrite Hreports.
        destruct (callback_short len out lp st1 Hlen HA1) as (C1 & C2 & C3 & C4).
        destruct (callback len out lp st1) as [lp1 st2]. cbn [fst snd] in *.
        destruct (crashed st2) eqn:Hcr.
        -- cbn [fst snd]. repeat split; auto. congruence.
        -- destruct (IH lp1 st2 waiting C1) as (R1 & R2 & R3).
           ++ cbn in HB. lia.
           ++ destruct HC as [Hb | [Hne Hlt]]; [left; auto | right].
              split; [apply C3; congruence | cbn in Hlt; lia].
           ++ repeat split; auto. congruence.
      * destruct (IH lp st1 (waiting ++ [p])%list) as (R1 & R2 & R3).
        -- now rewrite Hreports.
        -- rewrite length_app. cbn in HB |- *. lia.
        -- destruct HC as [Hb | [Hne Hlt]]; [left; auto | right].
           split; [congruence | rewrite length_app; cbn in Hlt |- *; lia].
        -- repeat split; auto. congruence.
Qed.

Lemma deliver_all_fails (len : nat) (waiting : list Pending) :
  forall (lp : Loop) (st : State),
    forallb is_error (reports st) = true ->
    reports st <> [] ->
    completed lp + List.length waiting < len ->
    let r := deliver_all E len waiting lp st in
    forallb is_error (reports r) = true
    /\ stats (self r) = stats (self st)
    /\ reports r <> [].
Proof.
  induction waiting as [|p rest IH]; intros lp st HA Hne Hlt.
  - cbn. auto.
  - cbn [deliver_all].
    destruct (frame_deliver E p st) as [Hf _].
    destruct (deliver E p st) as [st1 out]. cbn [fst snd] in Hf. frame_eq Hf.
    assert (Hlen : S (completed lp) <> len) by (cbn in Hlt; lia).
    assert (HA1 : forallb is_error (reports st1) = true) by now rewrite Hreports.
    destruct (callback_short len out lp st1 Hlen HA1) as (C1 & C2 & C3 & C4).
    destruct (callback len out lp st1) as [lp1 st2]. cbn [fst snd] in *.
    assert (Hne2 : reports st2 <> []) by (apply C3; congruence).
    destruct (crashed st2).
    + repeat split; auto. congruence.
    + destruct (IH lp1 st2 C1 Hne2) as (R1 & R2 & R3); [cbn in Hlt; lia|].
      repeat split; auto. congruence.
Qed.

Lemma concurrent_fails (l : list Source) :
  (exists bad, In bad l /\ missing_url bad = true) ->
  forall st, forallb is_error (reports st) = true ->
             failed_from st (each_concurrent E l st).
Proof.
  intros Hbad st HA. unfold each_concurrent.
  destruct l as [|s rest] eqn:Hl; [destruct Hbad as (b & [] & _)|].
  rewrite <- Hl in *. clear Hl s rest.
  pose proof (start_all_fails (List.length l) l
                {| failed := false; completed := 0 |} st [] HA) as H.
  cbn [completed List.length Nat.add] in H.
  specialize (H (Nat.le_refl _) (or_introl Hbad)).
  destruct (start_all E (List.length l) l {| failed := false; completed := 0 |} st [])
    as [[lp st1] waiting]. cbn [fst snd] in H.
  destruct H as (R1 & R2 & R3).
  destruct (crashed st1) eqn:Hcr.
  - repeat split; auto.
  - destruct R3 as [R3 | [Hne Hlt]]; [congruence|].
    destruct (deliver_all_fails (List.length l) waiting lp st1 R1 Hne Hlt)
      as (D1 & D2 & D3).
    repeat split; auto. congruence.
Qed.

End Failure.

(** C2 (amended): when a registered source has no URL, the run fails:
    every report to the callback is an error, there is such a report
    unless an exception ended the process, no success is reported and the
    statistics are not computed; and the step of the offending source
    reports [URL required] without spawning a subprocess.  This holds in
    both disciplines of the iteration and wherever the source stands. *)
Theorem C2_missing_url_fails :
  forall (d : Discipline) (E : Env) (p : PageresInstance) (bad : Source),
    In bad (_src p) ->
    missing_url bad = true ->
    let r := run d E p in
    forallb is_error (reports r) = true
    /\ (reports r <> [] \/ crashed r = true)
    /\ stats (self r) = stats p
    /\ (forall st,
          iterator E st bad = (report (CbError "URL required") st, Settled Stalled))
    /\ (forall st, spawned (fst (iterator E st bad)) = spawned st).
Proof.
  intros d E p bad Hin Hbad r.
  assert (Hrun : failed_from (initial p) r).
  { subst r. unfold run. destruct (negb (Js.truthy (phantomjs E))).
    - repeat split. left. discriminate.
    - assert (Hex : exists b, In b (_src p) /\ missing_url b = true)
        by (exists bad; split; assumption).
      destruct d; cbn [eachAsync].
      + now apply series_fails.
      + now apply concurrent_fails. }
  destruct Hrun as (H1 & H2 & H3).
  split; [exact H1|]. split; [exact H2|]. split; [exact H3|].
  split.
  - intros st. now apply iterator_missing_url.
  - intros st. now rewrite iterator_missing_url.
Qed.

Lemma C2_missing_url_fails_witness :
  let p := Sample.with_sources [Sample.source "example.com" ["1024x768"];
                                Sample.no_url ["1024x768"]] in
  forallb is_error (reports (run Series Sample.env p)) = true
  /\ stats (self (run Series Sample.env p)) = None.
Proof.
  intros p.
  pose proof (C2_missing_url_fails Series Sample.env p (Sample.no_url ["1024x768"])
                (or_intror (or_introl eq_refl)) eq_refl) as H.
  destruct H as (H1 & _ & H3 & _).
  split; [exact H1 | exact H3].
Defined.

(** A source with a URL is registered before one without: the run fails
    with [URL required], yet the subprocess of the first source has been
    spawned, in both disciplines. *)
Lemma C2_counterexample :
  let p := Sample.with_sources [Sample.source "example.com" ["1024x768"];
                                Sample.no_url ["1024x768"]] in
  (exists bad, In bad (_src p) /\ missing_url bad = true)
  /\ reports (run Series Sample.env p) = [CbError "URL required"]
  /\ map ph_url (spawned (run Series Sample.env p)) = ["http://example.com"]
  /\ reports (run Concurrent Sample.env p) = [CbError "URL required"]
  /\ map ph_url (spawned (run Concurrent Sample.env p)) = ["http://example.com"].
Proof.
  intros p. split.
  - exists (Sample.no_url ["1024x768"]). split; [right; left|]; reflexivity.
  - vm_compute. repeat split.
Qed.

(** The other order: in series nothing is spawned; in the concurrent
    discipline the source after the offending one is processed all the
    same. *)
Example missing_url_first :
  let p := Sample.with_sources [Sample.no_url ["1024x768"];
                                Sample.source "example.com" ["1024x768"]] in
  spawned (run Series Sample.env p) = []
  /\ map ph_url (spawned (run Concurrent Sample.env p)) = ["http://example.com"]
  /\ reports (run Concurrent Sample.env p) = [CbError "URL required"].
Proof. vm_compute. repeat split. Qed.

(** C3: each call of [_resolution] and of [_viewport] builds a cache of
    its own, so the lookup behind it is invoked at every call: two
    sources with the popular-resolutions marker make [get-res] run
    twice, two sources with the same device keyword make [viewport-list]
    run twice with the same argument. *)
Theorem C3_lookups_not_shared :
  (forall E url o st,
      getRes_calls (fst (_resolution E url o st)) = S (getRes_calls st))
  /\ (forall E url sizes keywords o st,
        viewport_calls (fst (_viewport E url sizes keywords o st))
        = (viewport_calls st ++ [keywords])%list)
  /\ (forall d,
        getRes_calls
          (run d Sample.env
             (Sample.with_sources [Sample.source "example.com" ["w3counter"];
                                   Sample.source "example.org" ["w3counter"]])) = 2)
  /\ (forall d,
        viewport_calls
          (run d Sample.env
             (Sample.with_sources [Sample.source "example.com" ["iphone 5s"];
                                   Sample.source "example.org" ["iphone 5s"]]))
        = [["iphone 5s"]; ["iphone 5s"]]).
Proof.
  split; [reflexivity|]. split; [reflexivity|].
  split; intros d; destruct d; vm_compute; reflexivity.
Qed.

(** C9: the statistics are computed from [_sizes] and [_urls] when every
    source has called [next], before the streams are handed on.  For a
    source with an explicit size and a device keyword, [_viewport] records
    the sizes of the lookup only, while it generates a job for each
    element of the union with the explicit sizes: two jobs of two sizes
    are generated and the statistics count one size. *)
Theorem C9_stats_miss_explicit_sizes :
  (forall st,
      stats (self (finish st))
      = Some {| screenshots := List.length (Lodash.uniq (_sizes (self st)));
                urls := List.length (Lodash.uniq (_urls (self st))) |})
  /\ (forall d,
        let r := run d Sample.env
                   (Sample.with_sources [Sample.source "example.com" ["1024x768"; "iphone 5s"]]) in
        map (fun j => (ph_width j, ph_height j)) (spawned r)
        = [("1024", Some "768"); ("320", Some "568")]
        /\ _sizes (self r) = ["320x568"]
        /\ stats (self r) = Some {| screenshots := 1; urls := 1 |}
        /\ reports r = [CbItems (_items (self r))])
  /\ (forall E url sizes o res chunks st,
        Lodash.compile (template_text o) = Some chunks ->
        let st' := fst (_viewport_cb E url sizes o (Success res) st) in
        _sizes (self st') = (_sizes (self st) ++ map size res)%list
        /\ _items (self st')
           = (_items (self st)
              ++ map (stream_of E url o chunks) (Lodash.uniq (sizes ++ map size res)))%list).
Proof.
  split.
  { intros st. unfold finish. destruct (_dest (self st)) as [d|];
      [destruct (Js.truthy d)|]; reflexivity. }
  split.
  { intros d. destruct d; vm_compute; repeat split. }
  intros E url sizes o res chunks st Hc st'. subst st'. unfold _viewport_cb.
  rewrite push_sizes_add_jobs.
  rewrite (generate_each_compiled E false url o chunks _ _ Hc).
  unfold ended. cbn [fst snd add_jobs self _sizes _items].
  rewrite !app_nil_r. split; reflexivity.
Qed.

(** The same source with the explicit size alone, and with the keyword
    alone: here the statistics count what was generated. *)
Example stats_of_plain_sources :
  stats (self (run Series Sample.env
                 (Sample.with_sources [Sample.source "example.com" ["1024x768"; "320x568"];
                                       Sample.source "example.com" ["iphone 5s"]])))
  = Some {| screenshots := 2; urls := 1 |}.
Proof. reflexivity. Qed.

(** * Further properties *)

(** ** A run only appends *)

Section Growth.

Variable E : Env.

Lemma grows_refl (st : State) : grows st st.
Proof.
  repeat split; try reflexivity.
  - exists []. cbn. now rewrite !app_nil_r.
  - exists []. now rewrite app_nil_r.
  - exists []. now rewrite app_nil_r.
Qed.

Lemma grows_trans (a b c : State) : grows a b -> grows b c -> grows a c.
Proof.
  intros (O1 & S1 & D1 & (i1 & I1 & P1) & (z1 & Z1) & (u1 & U1))
         (O2 & S2 & D2 & (i2 & I2 & P2) & (z2 & Z2) & (u2 & U2)).
  repeat split; try congruence.
  - exists (i1 ++ i2)%list. rewrite I2, I1, P2, P1, map_app, !app_assoc. now split.
  - exists (z1 ++ z2)%list. now rewrite Z2, Z1, app_assoc.
  - exists (u1 ++ u2)%list. now rewrite U2, U1, app_assoc.
Qed.

Ltac grows_by items sizes urls :=
  repeat split; try reflexivity;
  [ exists items; cbn; rewrite ?app_nil_r; split; reflexivity
  | exists sizes; cbn; rewrite ?app_nil_r; reflexivity
  | exists urls; cbn; rewrite ?app_nil_r; reflexivity ].

Lemma grows_push_url (u : string) (st : State) : grows st (push_url u st).
Proof. grows_by (@nil Stream) (@nil string) [u]. Qed.

Lemma grows_push_size (s : string) (st : State) : grows st (push_size s st).
Proof. grows_by (@nil Stream) [s] (@nil string). Qed.

Lemma grows_job (i : Stream) (st : State) :
  grows st (push_item i (log_spawn (stream_job i) st)).
Proof. grows_by [i] (@nil string) (@nil string). Qed.

Lemma grows_set_resolutions (r : list Resolution) (st : State) :
  grows st (set_resolutions r st).
Proof. grows_by (@nil Stream) (@nil string) (@nil string). Qed.

Lemma grows_set_stats (s : Stats) (st : State) : grows st (set_stats s st).
Proof. grows_by (@nil Stream) (@nil string) (@nil string). Qed.

Lemma grows_log_getRes (st : State) : grows st (log_getRes st).
Proof. grows_by (@nil Stream) (@nil string) (@nil string). Qed.

Lemma grows_log_viewport (k : list string) (st : State) : grows st (log_viewport k st).
Proof. grows_by (@nil Stream) (@nil string) (@nil string). Qed.

Lemma grows_report (r : Report) (st : State) : grows st (report r st).
Proof. grows_by (@nil Stream) (@nil string) (@nil string). Qed.

Lemma grows_crash (st : State) : grows st (crash st).
Proof. grows_by (@nil Stream) (@nil string) (@nil string). Qed.

Lemma grows_generate_each (record : bool) (url : string) (o : Options)
    (sizes : list string) (st : State) :
  grows st (fst (generate_each E record url o sizes st)).
Proof.
  revert st. induction sizes as [|s rest IH]; intros st; [apply grows_refl|].
  cbn [generate_each].
  assert (H1 : grows st (if record then push_size s st else st)).
  { destruct record; [apply grows_push_size | apply grows_refl]. }
  unfold _generate. destruct (filename_of E url s o) as [f|]; [|exact H1].
  cbn [_phantom]. eapply grows_trans; [exact H1|].
  eapply grows_trans; [|apply IH].
  exact (grows_job {| stream_job := phantom_options E url s o; stream_filename := f |} _).
Qed.

Lemma grows_push_sizes (res : list Viewport) (st : State) :
  grows st (fold_left (fun s r => push_size (size r) s) res st).
Proof.
  revert st. induction res as [|r res IH]; intros st; [apply grows_refl|].
  cbn [fold_left]. eapply grows_trans; [apply grows_push_size | apply IH].
Qed.

Lemma grows_deliver (p : Pending) (st : State) : grows st (fst (deliver E p st)).
Proof.
  destruct p as [url o | url sizes keywords o]; cbn [deliver].
  - unfold _resolution_cb. destruct (getRes E) as [err|res]; [apply grows_refl|].
    unfold ended. cbn [fst].
    eapply grows_trans; [apply grows_set_resolutions | apply grows_generate_each].
  - unfold _viewport_cb. destruct (viewport E keywords) as [err|res]; [apply grows_refl|].
    unfold ended. cbn [fst].
    eapply grows_trans; [apply grows_push_sizes | apply grows_generate_each].
Qed.

Lemma grows_iterator (st : State) (s : Source) : grows st (fst (iterator E st s)).
Proof.
  unfold iterator. destruct (src_url s) as [u|]; [|apply grows_report].
  destruct (negb (Js.truthy u)); [apply grows_report|].
  destruct ((List.length (explicit_sizes (src_sizes s)) =? 0)%nat
            && Lodash.contains w3counter (keywords_of (src_sizes s))).
  { cbn. eapply grows_trans; [apply grows_push_url | apply grows_log_getRes]. }
  destruct (negb (List.length (keywords_of (src_sizes s)) =? 0)%nat).
  { cbn. eapply grows_trans; [apply grows_push_url | apply grows_log_viewport]. }
  match goal with
  | |- context [generate_each E true u ?o ?l ?s0] =>
      pose proof (grows_generate_each true u o l s0) as Hg;
      destruct (generate_each E true u o l s0) as [st2 ok]
  end.
  cbn in *. eapply grows_trans; [apply grows_push_url | exact Hg].
Qed.

Lemma grows_finish (st : State) : grows st (finish st).
Proof.
  unfold finish.
  destruct (_dest (self st)) as [d|]; [destruct (Js.truthy d)|];
    (eapply grows_trans; [apply grows_set_stats | apply grows_report]).
Qed.

Lemma grows_callback (len : nat) (out : Outcome) (lp : Loop) (st : State) :
  grows st (snd (callback len out lp st)).
Proof.
  unfold callback. destruct out as [|err| |].
  - destruct (failed lp); cbn [snd]; [apply grows_refl|].
    destruct (S (completed lp) =? len)%nat; [apply grows_finish | apply grows_refl].
  - destruct (failed lp); cbn [snd]; [apply grows_refl | apply grows_report].
  - apply grows_refl.
  - apply grows_crash.
Qed.

Lemma grows_each_series (l : list Source) (st : State) :
  grows st (each_series E l st).
Proof.
  revert st. induction l as [|s rest IH]; intros st; [apply grows_finish|].
  cbn [each_series].
  pose proof (grows_iterator st s) as H1.
  destruct (iterator E st s) as [st1 [out|p]]; cbn [fst] in H1.
  - destruct out.
    + eapply grows_trans; [exact H1 | apply IH].
    + eapply grows_trans; [exact H1 | apply grows_report].
    + exact H1.
    + eapply grows_trans; [exact H1 | apply grows_crash].
  - pose proof (grows_deliver p st1) as H2.
    destruct (deliver E p st1) as [st2 out]. cbn [fst] in H2.
    assert (H3 : grows st st2) by (eapply grows_trans; eassumption).
    destruct out.
    + eapply grows_trans; [exact H3 | apply IH].
    + eapply grows_trans; [exact H3 | apply grows_report].
    + exact H3.
    + eapply grows_trans; [exact H3 | apply grows_crash].
Qed.

Lemma grows_start_all (len : nat) (l : list Source) :
  forall lp st waiting, grows st (snd (fst (start_all E len l lp st waiting))).
Proof.
  induction l as [|s rest IH]; intros lp st waiting; [apply grows_refl|].
  cbn [start_all].
  pose proof (grows_iterator st s) as H1.
  destruct (iterator E st s) as [st1 [out|p]]; cbn [fst] in H1.
  - pose proof (grows_callback len out lp st1) as H2.
    destruct (callback len out lp st1) as [lp1 st2]. cbn [snd] in H2.
    assert (H3 : grows st st2) by (eapply grows_trans; eassumption).
    destruct (crashed st2); [exact H3|].
    eapply grows_trans; [exact H3 | apply IH].
  - eapply grows_trans; [exact H1 | apply IH].
Qed.

Lemma grows_deliver_all (len : nat) (waiting : list Pending) :
  forall lp st, grows st (deliver_all E len waiting lp st).
Proof.
  induction waiting as [|p rest IH]; intros lp st; [apply grows_refl|].
  cbn [deliver_all].
  pose proof (grows_deliver p st) as H1.
  destruct (deliver E p st) as [st1 out]. cbn [fst] in H1.
  pose proof (grows_callback len out lp st1) as H2.
  destruct (callback len out lp st1) as [lp1 st2]. cbn [snd] in H2.
  assert (H3 : grows st st2) by (eapply grows_trans; eassumption).
  destruct (crashed st2); [exact H3|].
  eapply grows_trans; [exact H3 | apply IH].
Qed.

Lemma grows_eachAsync (d : Discipline) (l : list Source) (st : State) :
  grows st (eachAsync d E l st).
Proof.
  destruct d; cbn [eachAsync]; [apply grows_each_series|].
  unfold each_concurrent. destruct l as [|s rest]; [apply grows_finish|].
  pose proof (grows_start_all (List.length (s :: rest)) (s :: rest)
                {| failed := false; completed := 0 |} st []) as H1.
  destruct (start_all E (List.length (s :: rest)) (s :: rest)
              {| failed := false; completed := 0 |} st []) as [[lp st1] waiting].
  cbn [fst snd] in H1. destruct (crashed st1); [exact H1|].
  eapply grows_trans; [exact H1 | apply grows_deliver_all].
Qed.

Lemma grows_run (d : Discipline) (p : PageresInstance) :
  grows (initial p) (run d E p).
Proof.
  unfold run. destruct (negb (Js.truthy (phantomjs E)));
    [apply grows_report | apply grows_eachAsync].
Qed.

End Growth.

(** X1: whatever the sources, the lookups and the discipline, [run]
    leaves the options, the registered sources and the destination as
    they were; it only appends to [_items], [_sizes] and [_urls]; and the
    subprocesses it spawns are those of the streams it appends, one for
    each, in the same order. *)
Theorem run_only_appends :
  forall (d : Discipline) (E : Env) (p : PageresInstance),
    let r := run d E p in
    options (self r) = options p
    /\ _src (self r) = _src p
    /\ _dest (self r) = _dest p
    /\ (exists items,
          _items (self r) = (_items p ++ items)%list
          /\ spawned r = map stream_job items)
    /\ (exists sizes, _sizes (self r) = (_sizes p ++ sizes)%list)
    /\ (exists urls, _urls (self r) = (_urls p ++ urls)%list).
Proof.
  intros d E p. exact (grows_run E d p).
Qed.

(** ** Runs that succeed *)

Ltac outside_eq H :=
  unfold outside in H; cbn [fst snd] in H;
  let Hr := fresh "Hreports" in
  let Hc := fresh "Hcrashed" in
  let Hs := fresh "Hstats" in
  let Ho := fresh "Hoptions" in
  let Hd := fresh "Hdest" in
  injection H as Hr Hc Hs Ho Hd.

Section Success.

Variable E : Env.

Lemma renders_chunks (o : Options) :
  renders o = true -> exists chunks, Lodash.compile (template_text o) = Some chunks.
Proof.
  unfold renders. destruct (Lodash.compile (template_text o)) as [c|];
    [now exists c | discriminate].
Qed.

Lemma succeeded_value {A : Type} (r : Result A) :
  succeeded r = true -> exists v, r = Success v.
Proof. destruct r as [e|v]; [discriminate | now exists v]. Qed.

Lemma deliver_ok (p : Pending) (st : State) :
  pending_ok E p = true ->
  snd (deliver E p st) = Next
  /\ outside (fst (deliver E p st)) = outside st
  /\ _urls (self (fst (deliver E p st))) = _urls (self st).
Proof.
  destruct p as [url o | url sizes keywords o]; cbn [pending_ok deliver];
    intros H; apply andb_true_iff in H as [Hr Hs];
    destruct (renders_chunks o Hr) as [chunks Hc];
    destruct (succeeded_value _ Hs) as [res Hres]; rewrite Hres.
  - unfold _resolution_cb.
    rewrite (generate_each_compiled E true url o chunks _ _ Hc).
    repeat split.
  - unfold _viewport_cb. rewrite push_sizes_add_jobs.
    rewrite (generate_each_compiled E false url o chunks _ _ Hc).
    repeat split.
Qed.

Lemma iterator_healthy (st : State) (s : Source) :
  healthy E (options (self st)) s = true ->
  outside (fst (iterator E st s)) = outside st
  /\ _urls (self (fst (iterator E st s))) = (_urls (self st) ++ [url_of s])%list
  /\ (snd (iterator E st s) = Settled Next
      \/ exists p, snd (iterator E st s) = Await p /\ pending_ok E p = true).
Proof.
  unfold healthy, lookup_answers, missing_url, url_of, iterator.
  intros H. apply andb_true_iff in H as [H Hl]. apply andb_true_iff in H as [Hu Hr].
  destruct (src_url s) as [u|]; [|discriminate].
  apply negb_true_iff in Hu. rewrite Hu. change (assign (assign no_options (Some (options (self st)))) (src_options s))
    with (options_for (options (self st)) s).
  destruct ((List.length (explicit_sizes (src_sizes s)) =? 0)%nat
            && Lodash.contains w3counter (keywords_of (src_sizes s))).
  { cbn. repeat split. right. eexists. split; [reflexivity|].
    cbn. now rewrite Hr, Hl. }
  destruct (negb (List.length (keywords_of (src_sizes s)) =? 0)%nat).
  { cbn. repeat split. right. eexists. split; [reflexivity|].
    cbn. now rewrite Hr, Hl. }
  destruct (renders_chunks _ Hr) as [chunks Hc].
  rewrite (generate_each_compiled E true u _ chunks _ _ Hc).
  cbn. repeat split. now left.
Qed.

Lemma finish_done (st : State) :
  crashed st = false ->
  done (reports st) (finish st) /\ _urls (self (finish st)) = _urls (self st)
  /\ options (self (finish st)) = options (self st).
Proof.
  intros Hc. unfold done, finish, final_report.
  destruct (_dest (self st)) as [d|] eqn:Hd; [destruct (Js.truthy d) eqn:Ht|];
    cbn; rewrite ?Hd, ?Ht; repeat split; assumption.
Qed.

Lemma series_succeeds (l : list Source) :
  forall st,
    forallb (healthy E (options (self st))) l = true ->
    crashed st = false ->
    done (reports st) (each_series E l st)
    /\ _urls (self (each_series E l st)) = (_urls (self st) ++ map url_of l)%list.
Proof.
  induction l as [|s rest IH]; intros st Hall Hcr.
  - cbn [each_series map]. rewrite app_nil_r.
    destruct (finish_done st Hcr) as (H1 & H2 & _). now split.
  - cbn [forallb] in Hall. apply andb_true_iff in Hall as [Hs Hrest].
    cbn [each_series map].
    destruct (iterator_healthy st s Hs) as (Ho & Hu & Hstep).
    destruct (iterator E st s) as [st1 step]. cbn [fst snd] in Ho, Hu, Hstep.
    outside_eq Ho.
    destruct Hstep as [-> | (p & -> & Hp)].
    + destruct (IH st1) as [D U]; [now rewrite Hoptions | congruence |].
      rewrite Hreports in D. split; [exact D|].
      rewrite U, Hu, <- app_assoc. reflexivity.
    + destruct (deliver_ok p st1 Hp) as (Hn & Ho2 & Hu2).
      destruct (deliver E p st1) as [st2 out]. cbn [fst snd] in Hn, Ho2, Hu2.
      subst out. outside_eq Ho2.
      destruct (IH st2) as [D U]; [congruence | congruence |].
      rewrite Hreports0, Hreports in D. split; [exact D|].
      rewrite U, Hu2, Hu, <- app_assoc. reflexivity.
Qed.

End Success.

Section SuccessConcurrent.

Variable E : Env.

Lemma callback_next (len : nat) (lp : Loop) (st : State) :
  failed lp = false ->
  callback len Next lp st
  = ({| failed := false; completed := S (completed lp) |},
     if (S (completed lp) =? len)%nat then finish st else st).
Proof. intros H. unfold callback. now rewrite H. Qed.

Lemma start_all_ok (len : nat) (l : list Source) :
  forall (lp : Loop) (st : State) (waiting : list Pending),
    forallb (healthy E (options (self st))) l = true ->
    forallb (pending_ok E) waiting = true ->
    failed lp = false ->
    crashed st = false ->
    completed lp + List.length waiting + List.length l = len ->
    completed lp < len ->
    let r := start_all E len l lp st waiting in
    forallb (pending_ok E) (snd r) = true
    /\ failed (fst (fst r)) = false
    /\ completed (fst (fst r)) + List.length (snd r) = len
    /\ _urls (self (snd (fst r))) = (_urls (self st) ++ map url_of l)%list
    /\ ((completed (fst (fst r)) = len /\ done (reports st) (snd (fst r)))
        \/ (completed (fst (fst r)) < len /\ outside (snd (fst r)) = outside st)).
Proof.
  induction l as [|s rest IH]; intros lp st waiting Hall Hw Hf Hcr Hsum Hlt.
  - cbn. rewrite app_nil_r. cbn in Hsum. repeat split; auto; try lia.
  - cbn [forallb] in Hall. apply andb_true_iff in Hall as [Hs Hrest].
    cbn [start_all map].
    destruct (iterator_healthy E st s Hs) as (Ho & Hu & Hstep).
    destruct (iterator E st s) as [st1 step]. cbn [fst snd] in Ho, Hu, Hstep.
    outside_eq Ho.
    destruct Hstep as [-> | (p & -> & Hp)].
    + rewrite (callback_next len lp st1 Hf).
      destruct (S (completed lp) =? len)%nat eqn:Hlen.
      * apply Nat.eqb_eq in Hlen.
        destruct rest as [|s' rest']; [|cbn in Hsum; lia].
        destruct waiting as [|p waiting']; [|cbn in Hsum; lia].
        assert (Hcr1 : crashed st1 = false) by congruence.
        destruct (finish_done st1 Hcr1) as (D & U & _).
        destruct D as (D1 & D2 & D3). rewrite D3. cbn [start_all fst snd].
        repeat split; auto.
        -- cbn. lia.
        -- now rewrite U, Hu.
        -- left. split; [exact Hlen|]. repeat split; auto. now rewrite D1, Hreports.
      * apply Nat.eqb_neq in Hlen.
        assert (Hcr1 : crashed st1 = false) by congruence. rewrite Hcr1.
        destruct (IH {| failed := false; completed := S (completed lp) |} st1 waiting)
          as (R1 & R2 & R3 & R4 & R5); auto.
        -- now rewrite Hoptions.
        -- cbn in Hsum |- *. lia.
        -- cbn. lia.
        -- repeat split; auto.
           ++ rewrite R4, Hu, <- app_assoc. reflexivity.
           ++ destruct R5 as [[Hd D] | [Hd O]]; [left | right]; split; auto.
              ** now rewrite <- Hreports.
              ** rewrite O. unfold outside. congruence.
    + destruct (IH lp st1 (waiting ++ [p])%list) as (R1 & R2 & R3 & R4 & R5); auto.
      -- now rewrite Hoptions.
      -- rewrite forallb_app, Hw. cbn. now rewrite Hp.
      -- congruence.
      -- rewrite length_app. cbn in Hsum |- *. lia.
      -- repeat split; auto.
         ++ rewrite R4, Hu, <- app_assoc. reflexivity.
         ++ destruct R5 as [[Hd D] | [Hd O]]; [left | right]; split; auto.
            ** now rewrite <- Hreports.
            ** rewrite O. unfold outside. congruence.
Qed.

Lemma deliver_all_ok (len : nat) (waiting : list Pending) :
  forall (lp : Loop) (st : State),
    forallb (pending_ok E) waiting = true ->
    failed lp = false ->
    crashed st = false ->
    completed lp + List.length waiting = len ->
    completed lp < len ->
    done (reports st) (deliver_all E len waiting lp st)
    /\ _urls (self (deliver_all E len waiting lp st)) = _urls (self st).
Proof.
  induction waiting as [|p rest IH]; intros lp st Hw Hf Hcr Hsum Hlt.
  - cbn in Hsum. lia.
  - cbn [forallb] in Hw. apply andb_true_iff in Hw as [Hp Hrest].
    cbn [deliver_all].
    destruct (deliver_ok E p st Hp) as (Hn & Ho & Hu).
    destruct (deliver E p st) as [st1 out]. cbn [fst snd] in Hn, Ho, Hu.
    subst out. outside_eq Ho.
    assert (Hcr1 : crashed st1 = false) by congruence.
    rewrite (callback_next len lp st1 Hf).
    destruct (S (completed lp) =? len)%nat eqn:Hlen.
    + apply Nat.eqb_eq in Hlen.
      destruct rest as [|p' rest']; [|cbn in Hsum; lia].
      destruct (finish_done st1 Hcr1) as (D & U & _).
      destruct D as (D1 & D2 & D3). rewrite D3. cbn [deliver_all].
      split; [|congruence]. repeat split; auto. now rewrite D1, Hreports.
    + apply Nat.eqb_neq in Hlen. rewrite Hcr1.
      destruct (IH {| failed := false; completed := S (completed lp) |} st1)
        as (D & U); auto.
      * cbn in Hsum |- *. lia.
      * cbn. cbn in Hsum. lia.
      * split; [|congruence]. now rewrite <- Hreports.
Qed.

Lemma concurrent_succeeds (l : list Source) (st : State) :
  forallb (healthy E (options (self st))) l = true ->
  crashed st = false ->
  done (reports st) (each_concurrent E l st)
  /\ _urls (self (each_concurrent E l st)) = (_urls (self st) ++ map url_of l)%list.
Proof.
  intros Hall Hcr. unfold each_concurrent.
  destruct l as [|s rest] eqn:Hl.
  - cbn [map]. rewrite app_nil_r.
    destruct (finish_done st Hcr) as (H1 & H2 & _). now split.
  - rewrite <- Hl in *.
    assert (Hpos : 0 < List.length l) by (rewrite Hl; cbn; lia).
    clear Hl s rest.
    pose proof (start_all_ok (List.length l) l {| failed := false; completed := 0 |}
                  st [] Hall eq_refl eq_refl Hcr eq_refl Hpos) as H.
    destruct (start_all E (List.length l) l {| failed := false; completed := 0 |} st [])
      as [[lp st1] waiting]. cbn [fst snd] in H.
    destruct H as (R1 & R2 & R3 & R4 & R5).
    destruct R5 as [[Hd D] | [Hd O]].
    + destruct D as (D1 & D2 & D3). rewrite D3.
      destruct waiting as [|p w]; [|cbn in R3; lia].
      cbn [deliver_all]. split; [|exact R4]. repeat split; auto.
    + outside_eq O. rewrite Hcrashed, Hcr.
      destruct (deliver_all_ok (List.length l) waiting lp st1) as (D & U); auto.
      * congruence.
      * split; [now rewrite <- Hreports | congruence].
Qed.

End SuccessConcurrent.

Lemma run_done (d : Discipline) (E : Env) (p : PageresInstance) :
  Js.truthy (phantomjs E) = true ->
  forallb (healthy E (options p)) (_src p) = true ->
  done [] (run d E p)
  /\ _urls (self (run d E p)) = (_urls p ++ map url_of (_src p))%list.
Proof.
  intros Hph Hall. unfold run. rewrite Hph. cbn [negb].
  destruct d; cbn [eachAsync].
  - exact (series_succeeds E (_src p) (initial p) Hall eq_refl).
  - exact (concurrent_succeeds E (_src p) (initial p) Hall eq_refl).
Qed.

(** X2: when the renderer is there and every registered source has a
    URL, a filename template that compiles and, if it sends a lookup, a
    lookup that answers, the run reports exactly once, the streams it
    holds, to the callback or to the save stage when a destination is
    set; no exception escapes; the statistics are the numbers of distinct
    recorded sizes and of distinct URLs, the URLs of the sources being
    appended to [_urls] in registration order.  In both disciplines. *)
Theorem healthy_run_reports_once :
  forall (d : Discipline) (E : Env) (p : PageresInstance),
    Js.truthy (phantomjs E) = true ->
    forallb (healthy E (options p)) (_src p) = true ->
    let r := run d E p in
    reports r = [final_report (self r)]
    /\ crashed r = false
    /\ _urls (self r) = (_urls p ++ map url_of (_src p))%list
    /\ stats (self r)
       = Some {| screenshots := List.length (Lodash.uniq (_sizes (self r)));
                 urls := List.length (Lodash.uniq (_urls p ++ map url_of (_src p))) |}.
Proof.
  intros d E p Hph Hall r.
  destruct (run_done d E p Hph Hall) as ((D1 & D2 & D3) & U). fold r in D1, D2, D3, U.
  split; [exact D1|]. split; [exact D3|]. split; [exact U|].
  rewrite D2. unfold stats_of. now rewrite U.
Qed.

Lemma healthy_run_reports_once_witness :
  let p := Sample.with_sources [Sample.source "example.com" ["1024x768"; "iphone 5s"];
                                Sample.source "example.org" ["w3counter"];
                                Sample.source "example.com" ["320x480"]] in
  reports (run Concurrent Sample.env p) = [final_report (self (run Concurrent Sample.env p))]
  /\ _urls (self (run Concurrent Sample.env p)) = ["example.com"; "example.org"; "example.com"].
Proof.
  intros p.
  assert (Hall : forallb (healthy Sample.env (options p)) (_src p) = true)
    by (vm_compute; reflexivity).
  pose proof (healthy_run_reports_once Concurrent Sample.env p eq_refl Hall) as H.
  destruct H as (H1 & _ & H3 & _).
  split; [exact H1 | exact H3].
Defined.

(** ** Runs in which a lookup fails *)

Section LookupFailure.

Variable E : Env.

Lemma deliver_fails (p : Pending) (st : State) :
  pending_fails E p = true -> exists err, deliver E p st = (st, NextError err).
Proof.
  destruct p as [url o | url sizes keywords o]; cbn [pending_fails deliver].
  - unfold _resolution_cb. destruct (getRes E) as [err|res]; [|discriminate].
    intros _. now exists err.
  - unfold _viewport_cb. destruct (viewport E keywords) as [err|res]; [|discriminate].
    intros _. now exists err.
Qed.

(** A source with a URL whose lookup fails: the lookup is sent, nothing
    is generated. *)
Lemma iterator_lookup_fails (st : State) (s : Source) :
  missing_url s = false ->
  lookup_answers E s = false ->
  exists p,
    snd (iterator E st s) = Await p
    /\ pending_fails E p = true
    /\ frame (fst (iterator E st s)) = frame st
    /\ spawned (fst (iterator E st s)) = spawned st
    /\ _items (self (fst (iterator E st s))) = _items (self st).
Proof.
  unfold missing_url, lookup_answers, iterator.
  destruct (src_url s) as [u|]; [|discriminate].
  intros Hu. apply negb_false_iff in Hu. rewrite Hu. cbn [negb].
  destruct ((List.length (explicit_sizes (src_sizes s)) =? 0)%nat
            && Lodash.contains w3counter (keywords_of (src_sizes s))).
  { intros Hl. eexists. split; [reflexivity|]. cbn. rewrite Hl. repeat split. }
  destruct (negb (List.length (keywords_of (src_sizes s)) =? 0)%nat); [|discriminate].
  intros Hl. eexists. split; [reflexivity|]. cbn. rewrite Hl. repeat split.
Qed.

Lemma doomed_cases (s : Source) :
  doomed E s = true ->
  missing_url s = true \/ (missing_url s = false /\ lookup_answers E s = false).
Proof.
  unfold doomed. destruct (missing_url s); [now left|].
  cbn. intros H. apply negb_true_iff in H. now right.
Qed.

Lemma doomed_elsewhere (s : Source) (rest : list Source) :
  doomed E s = false ->
  (exists b, In b (s :: rest) /\ doomed E b = true) ->
  exists b, In b rest /\ doomed E b = true.
Proof.
  intros Hs (b & Hin & Hb). exists b. split; [|assumption].
  destruct Hin as [<-|Hin]; [congruence | assumption].
Qed.

Lemma series_doomed (l : list Source) :
  (exists b, In b l /\ doomed E b = true) ->
  forall st, forallb is_error (reports st) = true ->
             failed_from st (each_series E l st).
Proof.
  induction l as [|s rest IH]; intros Hex st HA.
  - destruct Hex as (b & [] & _).
  - cbn [each_series]. destruct (doomed E s) eqn:Hd.
    + destruct (doomed_cases s Hd) as [Hm | [Hm Hl]].
      * rewrite (iterator_missing_url E st s Hm).
        repeat split; cbn.
        -- now apply errors_snoc.
        -- left. apply snoc_not_nil.
      * destruct (iterator_lookup_fails st s Hm Hl) as (p & Hp & Hpf & Hf & _).
        destruct (iterator E st s) as [st1 step]. cbn [fst snd] in Hp, Hf. subst step.
        destruct (deliver_fails p st1 Hpf) as [err ->].
        frame_eq Hf. repeat split; cbn.
        -- rewrite Hreports. now apply errors_snoc.
        -- left. apply snoc_not_nil.
        -- assumption.
    + pose proof (doomed_elsewhere s rest Hd Hex) as Hrest.
      assert (Hm : missing_url s = false).
      { unfold doomed in Hd. now apply orb_false_iff in Hd as [Hm _]. }
      destruct (iterator_with_url E st s Hm) as [Hf Hns].
      destruct (iterator E st s) as [st1 [out|p]]; cbn [fst snd] in Hf, Hns.
      * apply series_tail; auto. intros ->. now apply Hns.
      * destruct (frame_deliver E p st1) as [Hf2 Hns2].
        destruct (deliver E p st1) as [st2 out]. cbn [fst snd] in Hf2, Hns2.
        apply series_tail; auto. congruence.
Qed.

(** The concurrent bookkeeping on any outcome, as long as a [next()]
    cannot complete the count. *)
Lemma callback_doomed (len : nat) (out : Outcome) (lp : Loop) (st : State) :
  (out = Next -> S (completed lp) <> len) ->
  forallb is_error (reports st) = true ->
  (failed lp = true -> reports st <> []) ->
  forallb is_error (reports (snd (callback len out lp st))) = true
  /\ stats (self (snd (callback len out lp st))) = stats (self st)
  /\ (reports st <> [] -> reports (snd (callback len out lp st)) <> [])
  /\ completed (fst (callback len out lp st)) <= S (completed lp)
  /\ (failed (fst (callback len out lp st)) = true ->
      reports (snd (callback len out lp st)) <> [])
  /\ (forall err, out = NextError err ->
        reports (snd (callback len out lp st)) <> []
        /\ completed (fst (callback len out lp st)) = completed lp).
Proof.
  intros Hlen HA HD. unfold callback. destruct out as [|err| |].
  - specialize (Hlen eq_refl). apply Nat.eqb_neq in Hlen.
    destruct (failed lp) eqn:Hf; cbv zeta; rewrite ?Hlen; cbn [fst snd completed failed];
      repeat split; auto; try discriminate.
  - destruct (failed lp) eqn:Hf; cbn [fst snd completed failed reports report].
    + repeat split; auto.
    + repeat split; auto; try (intros; apply snoc_not_nil).
      now apply errors_snoc.
  - cbn. repeat split; auto; discriminate.
  - cbn. repeat split; auto; discriminate.
Qed.

Lemma start_all_doomed (len : nat) (l : list Source) :
  forall (lp : Loop) (st : State) (waiting : list Pending),
    forallb is_error (reports st) = true ->
    (failed lp = true -> reports st <> []) ->
    completed lp + List.length waiting + List.length l <= len ->
    ((exists b, In b l /\ doomed E b = true)
     \/ some_fails E waiting
     \/ (reports st <> []
         /\ completed lp + List.length waiting + List.length l < len)) ->
    let r := start_all E len l lp st waiting in
    forallb is_error (reports (snd (fst r))) = true
    /\ stats (self (snd (fst r))) = stats (self st)
    /\ (crashed (snd (fst r)) = true
        \/ ((failed (fst (fst r)) = true -> reports (snd (fst r)) <> [])
            /\ completed (fst (fst r)) + List.length (snd r) <= len
            /\ (some_fails E (snd r)
                \/ (reports (snd (fst r)) <> []
                    /\ completed (fst (fst r)) + List.length (snd r) < len)))).
Proof.
  induction l as [|s rest IH]; intros lp st waiting HA HD HB HC.
  - cbn. cbn in HB, HC. repeat split; auto. right. repeat split; auto; [lia|].
    destruct HC as [(b & [] & _) | [Hw | [Hne Hlt]]]; [now left | right].
    split; [assumption | lia].
  - cbn [start_all]. cbn [List.length] in HB, HC.
    destruct (doomed E s) eqn:Hd.
    + destruct (doomed_cases s Hd) as [Hm | [Hm Hl]].
      * rewrite (iterator_missing_url E st s Hm). cbn [callback].
        destruct (crashed (report (CbError "URL required") st)) eqn:Hcr.
        -- cbn [fst snd]. repeat split; cbn; auto. now apply errors_snoc.
        -- destruct (IH lp (report (CbError "URL required") st) waiting)
             as (R1 & R2 & R3).
           ++ now apply errors_snoc.
           ++ intros _. apply snoc_not_nil.
           ++ lia.
           ++ right. right. split; [apply snoc_not_nil | lia].
           ++ repeat split; [exact R1 | exact R2 | exact R3].
      * destruct (iterator_lookup_fails st s Hm Hl) as (p & Hp & Hpf & Hf & _).
        destruct (iterator E st s) as [st1 step]. cbn [fst snd] in Hp, Hf. subst step.
        frame_eq Hf.
        destruct (IH lp st1 (waiting ++ [p])%list) as (R1 & R2 & R3).
        -- now rewrite Hreports.
        -- rewrite Hreports. exact HD.
        -- rewrite length_app. cbn. lia.
        -- right. left. exists p. split; [apply in_or_app; right; now left | exact Hpf].
        -- repeat split; auto. congruence.
    + assert (Hm : missing_url s = false).
      { unfold doomed in Hd. now apply orb_false_iff in Hd as [Hm _]. }
      assert (HC' : (exists b, In b rest /\ doomed E b = true)
                    \/ some_fails E waiting
                    \/ (reports st <> []
                        /\ completed lp + List.length waiting + S (List.length rest) < len)).
      { destruct HC as [Hb | HC]; [left; now apply (doomed_elsewhere s) | now right]. }
      destruct (iterator_with_url E st s Hm) as [Hf _].
      destruct (iterator E st s) as [st1 [out|p]]; cbn [fst snd] in Hf; frame_eq Hf.
      * assert (Hlen : out = Next -> S (completed lp) <> len).
        { intros _ Heq. destruct HC' as [(b & Hin & _) | [(q & Hin & _) | [_ Hlt]]].
          - destruct rest; [destruct Hin | cbn in HB; lia].
          - destruct waiting; [destruct Hin | cbn in HB; lia].
          - lia. }
        assert (HA1 : forallb is_error (reports st1) = true) by now rewrite Hreports.
        assert (HD1 : failed lp = true -> reports st1 <> []) by now rewrite Hreports.
        destruct (callback_doomed len out lp st1 Hlen HA1 HD1)
          as (C1 & C2 & C3 & C4 & C5 & _).
        destruct (callback len out lp st1) as [lp1 st2]. cbn [fst snd] in *.
        destruct (crashed st2) eqn:Hcr.
        -- cbn [fst snd]. repeat split; auto. congruence.
        -- destruct (IH lp1 st2 waiting C1 C5) as (R1 & R2 & R3).
           ++ lia.
           ++ destruct HC' as [Hb | [Hw | [Hne Hlt]]]; [now left | now right; left |].
              right. right. split; [apply C3; congruence | lia].
           ++ repeat split; auto. congruence.
      * destruct (IH lp st1 (waiting ++ [p])%list) as (R1 & R2 & R3).
        -- now rewrite Hreports.
        -- rewrite Hreports. exact HD.
        -- rewrite length_app. cbn. lia.
        -- destruct HC' as [Hb | [(q & Hin & Hq) | [Hne Hlt]]]; [now left | |].
           ++ right. left. exists q. split; [apply in_or_app; now left | exact Hq].
           ++ right. right. split; [congruence | rewrite length_app; cbn; lia].
        -- repeat split; auto. congruence.
Qed.

Lemma deliver_all_doomed (len : nat) (waiting : list Pending) :
  forall (lp : Loop) (st : State),
    forallb is_error (reports st) = true ->
    (failed lp = true -> reports st <> []) ->
    completed lp + List.length waiting <= len ->
    (some_fails E waiting
     \/ (reports st <> [] /\ completed lp + List.length waiting < len)) ->
    let r := deliver_all E len waiting lp st in
    forallb is_error (reports r) = true
    /\ stats (self r) = stats (self st)
    /\ (reports r <> [] \/ crashed r = true).
Proof.
  induction waiting as [|p rest IH]; intros lp st HA HD HB HC.
  - cbn. repeat split; auto. destruct HC as [(q & [] & _) | [Hne _]]. now left.
  - cbn [deliver_all]. cbn [List.length] in HB, HC.
    destruct (pending_fails E p) eqn:Hp.
    + destruct (deliver_fails p st Hp) as [err ->].
      assert (Hlen : NextError err = Next -> S (completed lp) <> len) by discriminate.
      destruct (callback_doomed len (NextError err) lp st Hlen HA HD)
        as (C1 & C2 & C3 & C4 & C5 & C6).
      destruct (C6 err eq_refl) as [C7 C8].
      destruct (callback len (NextError err) lp st) as [lp1 st2]. cbn [fst snd] in *.
      destruct (crashed st2) eqn:Hcr; [repeat split; auto|].
      destruct (IH lp1 st2 C1 C5) as (R1 & R2 & R3).
      * lia.
      * right. split; [exact C7 | lia].
      * repeat split; auto. congruence.
    + assert (HC' : some_fails E rest
                    \/ (reports st <> [] /\ completed lp + S (List.length rest) < len)).
      { destruct HC as [(q & Hin & Hq) | HC]; [left | now right].
        exists q. split; [|exact Hq]. destruct Hin as [<-|Hin]; [congruence | exact Hin]. }
      destruct (frame_deliver E p st) as [Hf _].
      destruct (deliver E p st) as [st1 out]. cbn [fst snd] in Hf. frame_eq Hf.
      assert (Hlen : out = Next -> S (completed lp) <> len).
      { intros _ Heq. destruct HC' as [(q & Hin & _) | [_ Hlt]].
        - destruct rest; [destruct Hin | cbn in HB; lia].
        - lia. }
      assert (HA1 : forallb is_error (reports st1) = true) by now rewrite Hreports.
      assert (HD1 : failed lp = true -> reports st1 <> []) by now rewrite Hreports.
      destruct (callback_doomed len out lp st1 Hlen HA1 HD1)
        as (C1 & C2 & C3 & C4 & C5 & _).
      destruct (callback len out lp st1) as [lp1 st2]. cbn [fst snd] in *.
      destruct (crashed st2) eqn:Hcr.
      * repeat split; auto. congruence.
      * destruct (IH lp1 st2 C1 C5) as (R1 & R2 & R3).
        -- lia.
        -- destruct HC' as [Hw | [Hne Hlt]]; [now left | right].
           split; [apply C3; congruence | lia].
        -- repeat split; auto. congruence.
Qed.

Lemma concurrent_doomed (l : list Source) :
  (exists b, In b l /\ doomed E b = true) ->
  forall st, forallb is_error (reports st) = true ->
             failed_from st (each_concurrent E l st).
Proof.
  intros Hex st HA. unfold each_concurrent.
  destruct l as [|s rest] eqn:Hl; [destruct Hex as (b & [] & _)|].
  rewrite <- Hl in *. clear Hl s rest.
  pose proof (start_all_doomed (List.length l) l
                {| failed := false; completed := 0 |} st [] HA) as H.
  cbn [completed failed List.length Nat.add] in H.
  specialize (H ltac:(discriminate) (Nat.le_refl _) (or_introl Hex)).
  destruct (start_all E (List.length l) l {| failed := false; completed := 0 |} st [])
    as [[lp st1] waiting]. cbn [fst snd] in H.
  destruct H as (R1 & R2 & R3).
  destruct (crashed st1) eqn:Hcr.
  - repeat split; auto.
  - destruct R3 as [R3 | (RD & RB & RC)]; [congruence|].
    destruct (deliver_all_doomed (List.length l) waiting lp st1 R1 RD RB RC)
      as (D1 & D2 & D3).
    repeat split; auto. congruence.
Qed.

End LookupFailure.

(** X3: when the lookup of a registered source answers with an error,
    the run fails as a whole, in both disciplines: every report is an
    error, there is one unless an exception ended the process, no success
    is reported and no statistics are computed; the callback of the
    failing lookup generates no job. *)
Theorem lookup_failure_fails_run :
  forall (d : Discipline) (E : Env) (p : PageresInstance) (s : Source),
    In s (_src p) ->
    missing_url s = false ->
    lookup_answers E s = false ->
    let r := run d E p in
    forallb is_error (reports r) = true
    /\ (reports r <> [] \/ crashed r = true)
    /\ stats (self r) = stats p
    /\ (forall st, exists q err,
          snd (iterator E st s) = Await q
          /\ deliver E q (fst (iterator E st s)) = (fst (iterator E st s), NextError err)
          /\ spawned (fst (iterator E st s)) = spawned st).
Proof.
  intros d E p s Hin Hm Hl r.
  assert (Hd : doomed E s = true) by (unfold doomed; now rewrite Hm, Hl).
  assert (Hrun : failed_from (initial p) r).
  { subst r. unfold run. destruct (negb (Js.truthy (phantomjs E))).
    - repeat split. left. discriminate.
    - assert (Hex : exists b, In b (_src p) /\ doomed E b = true)
        by (exists s; split; assumption).
      destruct d; cbn [eachAsync].
      + now apply series_doomed.
      + now apply concurrent_doomed. }
  destruct Hrun as (H1 & H2 & H3).
  split; [exact H1|]. split; [exact H2|]. split; [exact H3|].
  intros st. destruct (iterator_lookup_fails E st s Hm Hl) as (q & Hq & Hqf & _ & Hsp & _).
  destruct (deliver_fails E q (fst (iterator E st s)) Hqf) as [err Herr].
  exists q, err. repeat split; assumption.
Qed.

Lemma lookup_failure_fails_run_witness :
  let p := Sample.with_sources [Sample.source "example.com" ["1024x768"];
                                Sample.source "example.org" ["nokia 3310"]] in
  forallb is_error (reports (run Concurrent Sample.env p)) = true
  /\ stats (self (run Concurrent Sample.env p)) = None.
Proof.
  intros p.
  pose proof (lookup_failure_fails_run Concurrent Sample.env p
                (Sample.source "example.org" ["nokia 3310"])
                (or_intror (or_introl eq_refl)) eq_refl eq_refl) as H.
  destruct H as (H1 & _ & H3 & _).
  split; [exact H1 | exact H3].
Defined.

Example lookup_failure_run :
  let p := Sample.with_sources [Sample.source "example.com" ["1024x768"];
                                Sample.source "example.org" ["nokia 3310"]] in
  reports (run Series Sample.env p) = [CbError "No sizes found"]
  /\ reports (run Concurrent Sample.env p) = [CbError "No sizes found"]
  /\ List.length (spawned (run Concurrent Sample.env p)) = 1.
Proof. vm_compute. repeat split. Qed.

(** ** Runs without keywords *)

Section Plain.

Variable E : Env.

Lemma plain_parts (s : Source) :
  plain s = true ->
  exists u, src_url s = Some u /\ Js.truthy u = true /\ keywords_of (src_sizes s) = [].
Proof.
  unfold plain, missing_url. intros H. apply andb_true_iff in H as [Hu Hk].
  destruct (src_url s) as [u|]; [|discriminate].
  exists u. repeat split.
  - now apply negb_true_iff, negb_false_iff in Hu.
  - destruct (keywords_of (src_sizes s)); [reflexivity | discriminate].
Qed.

(** Without keywords the step is the loop over the explicit sizes. *)
Lemma iterator_plain (st : State) (s : Source) (u : string) :
  src_url s = Some u -> Js.truthy u = true -> keywords_of (src_sizes s) = [] ->
  iterator E st s
  = (fst (generate_each E true u (merged st s) (explicit_sizes (src_sizes s))
            (push_url u st)),
     Settled (if snd (generate_each E true u (merged st s) (explicit_sizes (src_sizes s))
                        (push_url u st))
              then Next else Threw)).
Proof.
  intros Hu Ht Hk. unfold iterator. rewrite Hu, Ht, Hk. cbn [negb].
  rewrite andb_false_r. cbn [List.length Nat.eqb negb].
  unfold ended, merged. reflexivity.
Qed.

Lemma start_all_plain (len : nat) (l : list Source) :
  forall (lp : Loop) (st : State),
    forallb plain l = true ->
    failed lp = false ->
    crashed st = false ->
    completed lp + List.length l = len ->
    l <> [] ->
    snd (fst (start_all E len l lp st [])) = each_series E l st
    /\ snd (start_all E len l lp st []) = [].
Proof.
  induction l as [|s rest IH]; intros lp st Hall Hf Hcr Hsum Hne; [contradiction|].
  cbn [forallb] in Hall. apply andb_true_iff in Hall as [Hs Hrest].
  destruct (plain_parts s Hs) as (u & Hu & Ht & Hk).
  cbn [start_all each_series]. rewrite (iterator_plain st s u Hu Ht Hk).
  pose proof (frame_generate_each E true u (merged st s)
                (explicit_sizes (src_sizes s)) (push_url u st)) as Hfr.
  destruct (generate_each E true u (merged st s) (explicit_sizes (src_sizes s))
              (push_url u st)) as [st1 ok].
  cbn [fst snd] in *. frame_eq Hfr. cbn in Hcrashed.
  destruct ok.
  - rewrite (callback_next len lp st1 Hf).
    destruct rest as [|s' rest'].
    + cbn in Hsum. rewrite Nat.add_1_r in Hsum. rewrite Hsum, Nat.eqb_refl.
      cbn [start_all each_series]. destruct (crashed (finish st1)); now split.
    + assert (Hlen : (S (completed lp) =? len)%nat = false)
        by (apply Nat.eqb_neq; cbn in Hsum; lia).
      rewrite Hlen. assert (Hcr1 : crashed st1 = false) by congruence.
      rewrite Hcr1. apply IH; auto; [cbn in Hsum |- *; lia | discriminate].
  - cbn [callback crash crashed fst snd]. now split.
Qed.

Lemma concurrent_plain (l : list Source) (st : State) :
  forallb plain l = true -> crashed st = false ->
  each_concurrent E l st = each_series E l st.
Proof.
  intros Hall Hcr. unfold each_concurrent.
  destruct l as [|s rest] eqn:Hl; [reflexivity|].
  rewrite <- Hl in *.
  assert (Hne : l <> []) by (rewrite Hl; discriminate).
  destruct (start_all_plain (List.length l) l {| failed := false; completed := 0 |} st
              Hall eq_refl Hcr eq_refl Hne) as [H1 H2].
  destruct (start_all E (List.length l) l {| failed := false; completed := 0 |} st [])
    as [[lp st1] waiting]. cbn [fst snd] in H1, H2. subst waiting st1.
  cbn [deliver_all]. now destruct (crashed (each_series E l st)).
Qed.

Lemma series_plain (o : Options) (l : list Source) :
  forall st,
    options (self st) = o ->
    forallb plain l = true ->
    forallb (healthy E o) l = true ->
    let r := each_series E l st in
    _items (self r) = (_items (self st) ++ flat_map (jobs_of E o) l)%list
    /\ _sizes (self r)
       = (_sizes (self st) ++ flat_map (fun s => explicit_sizes (src_sizes s)) l)%list
    /\ spawned r = (spawned st ++ map stream_job (flat_map (jobs_of E o) l))%list
    /\ getRes_calls r = getRes_calls st
    /\ viewport_calls r = viewport_calls st.
Proof.
  induction l as [|s rest IH]; intros st Ho Hp Hh.
  - cbn [each_series flat_map map]. rewrite !app_nil_r. unfold finish.
    destruct (_dest (self st)) as [d|]; [destruct (Js.truthy d)|]; repeat split.
  - cbn [forallb] in Hp, Hh.
    apply andb_true_iff in Hp as [Hs Hrest].
    apply andb_true_iff in Hh as [Hhs Hhrest].
    destruct (plain_parts s Hs) as (u & Hu & Ht & Hk).
    cbn [each_series]. rewrite (iterator_plain st s u Hu Ht Hk).
    assert (Hr : renders (options_for o s) = true).
    { unfold healthy in Hhs. apply andb_true_iff in Hhs as [Hhs _].
      now apply andb_true_iff in Hhs as [_ Hr]. }
    destruct (renders_chunks _ Hr) as [chunks Hc].
    assert (Hm : merged st s = options_for o s) by (unfold merged, options_for; now rewrite Ho).
    rewrite Hm. rewrite (generate_each_compiled E true u _ chunks _ _ Hc).
    cbn [fst snd].
    destruct (IH (add_jobs (explicit_sizes (src_sizes s))
                    (map (stream_of E u (options_for o s) chunks)
                       (explicit_sizes (src_sizes s))) (push_url u st)))
      as (R1 & R2 & R3 & R4 & R5); auto.
    assert (Hjobs : map (stream_of E u (options_for o s) chunks)
                      (explicit_sizes (src_sizes s)) = jobs_of E o s).
    { unfold jobs_of, url_of. rewrite Hu. apply map_ext. intros sz.
      unfold stream_of, job, filename_of, Lodash.template. now rewrite Hc. }
    rewrite Hjobs in *. cbv zeta in *. cbn [flat_map].
    rewrite R1, R2, R3, R4, R5. cbn. rewrite map_app, !app_assoc. repeat split.
Qed.

End Plain.

Lemma run_plain (E : Env) (p : PageresInstance) :
  forallb plain (_src p) = true -> run Concurrent E p = run Series E p.
Proof.
  intros Hall. unfold run.
  destruct (negb (Js.truthy (phantomjs E))); [reflexivity|].
  cbn [eachAsync]. now apply concurrent_plain.
Qed.

(** X5: when the renderer is there and every registered source has a
    URL, only explicit sizes and a template that compiles, the run
    generates, in registration order, one stream for each distinct size
    of each source, in the order in which the sizes first occur; it
    records exactly these sizes, spawns exactly these subprocesses and
    sends no lookup.  In both disciplines. *)
Theorem explicit_sizes_run :
  forall (d : Discipline) (E : Env) (p : PageresInstance),
    Js.truthy (phantomjs E) = true ->
    forallb plain (_src p) = true ->
    forallb (healthy E (options p)) (_src p) = true ->
    let r := run d E p in
    _items (self r) = (_items p ++ flat_map (jobs_of E (options p)) (_src p))%list
    /\ _sizes (self r)
       = (_sizes p ++ flat_map (fun s => explicit_sizes (src_sizes s)) (_src p))%list
    /\ spawned r = map stream_job (flat_map (jobs_of E (options p)) (_src p))
    /\ getRes_calls r = 0
    /\ viewport_calls r = [].
Proof.
  intros d E p Hph Hp Hh r.
  assert (Hr : r = run Series E p).
  { subst r. destruct d; [reflexivity | now apply run_plain]. }
  rewrite Hr. unfold run. rewrite Hph. cbn [negb eachAsync].
  exact (series_plain E (options p) (_src p) (initial p) eq_refl Hp Hh).
Qed.

Lemma explicit_sizes_run_witness :
  let p := Sample.with_sources [Sample.source "example.com" ["1024x768"; "320x480"; "1024x768"];
                                Sample.source "index.html" ["1024x768"]] in
  map stream_filename (_items (self (run Concurrent Sample.env p)))
  = ["example.com-1024x768.png"; "example.com-320x480.png"; "index.html-1024x768.png"].
Proof.
  intros p.
  assert (Hp : forallb plain (_src p) = true) by (vm_compute; reflexivity).
  assert (Hh : forallb (healthy Sample.env (options p)) (_src p) = true)
    by (vm_compute; reflexivity).
  pose proof (explicit_sizes_run Concurrent Sample.env p eq_refl Hp Hh) as H.
  destruct H as (H1 & _).
  exact (eq_trans (f_equal (map stream_filename) H1) eq_refl).
Defined.

(** ** The dimensions handed to the renderer *)

Section Dimensions.

Lemma split_x_not_nil (s : string) : Js.split_x s <> [].
Proof.
  induction s as [|c r IH]; cbn; [discriminate|].
  destruct ((c =? "x")%char || (c =? "X")%char); [discriminate|].
  destruct (Js.split_x r); [contradiction | discriminate].
Qed.

Lemma split_x_prefix (w rest : string) :
  no_x w = true ->
  Js.split_x (w ++ rest)
  = (w ++ hd "" (Js.split_x rest)) :: tl (Js.split_x rest).
Proof.
  intros Hw. induction w as [|c w IH]; cbn [append].
  - pose proof (split_x_not_nil rest). now destruct (Js.split_x rest).
  - cbn [no_x] in Hw. apply andb_true_iff in Hw as [Hc Hw].
    apply negb_true_iff in Hc. unfold is_x in Hc.
    cbn [Js.split_x]. rewrite Hc, (IH Hw). reflexivity.
Qed.

Lemma split_x_whole (s : string) : no_x s = true -> Js.split_x s = [s].
Proof.
  intros H. rewrite <- (append_empty s) at 1.
  rewrite (split_x_prefix s "" H). cbn. now rewrite append_empty.
Qed.

Lemma digits_no_x (s : string) : all_digits s = true -> no_x s = true.
Proof.
  induction s as [|c r IH]; cbn; [reflexivity|].
  intros H. apply andb_true_iff in H as [Hc Hr]. rewrite (IH Hr), andb_true_r.
  destruct (is_x c) eqn:Hx; [|reflexivity].
  apply is_x_not_digit in Hx. congruence.
Qed.

End Dimensions.

(** X6: for a size that matches the resolution pattern, the renderer
    gets the digits before the [x] as width and the digits after it as
    height, three or four digits each, and the size is the width, the
    [x] and the height put together.  For a size without any [x], as a
    lookup may answer, the width is the whole string and the height is
    missing. *)
Theorem dimensions_of_a_size :
  forall (E : Env) (url sz : string) (o : Options),
    (is_resolution sz = true ->
     exists w c h,
       sz = w ++ String c h
       /\ is_x c = true
       /\ all_digits w = true /\ three_or_four w = true
       /\ all_digits h = true /\ three_or_four h = true
       /\ ph_width (phantom_options E url sz o) = w
       /\ ph_height (phantom_options E url sz o) = Some h)
    /\ (no_x sz = true ->
        ph_width (phantom_options E url sz o) = sz
        /\ ph_height (phantom_options E url sz o) = None).
Proof.
  intros E url sz o. split.
  - intros H. apply is_resolution_shape in H.
    destruct H as (w & c & h & -> & Haw & Hw & Hc & Hah & Hh).
    exists w, c, h. repeat split; auto; cbn [phantom_options ph_width ph_height];
      rewrite (split_x_prefix w (String c h) (digits_no_x w Haw));
      cbn [Js.split_x]; unfold is_x in Hc; rewrite Hc;
      rewrite (split_x_whole h (digits_no_x h Hah)); cbn.
    + now rewrite append_empty.
    + reflexivity.
  - intros H. cbn [phantom_options ph_width ph_height].
    rewrite (split_x_whole sz H). now split.
Qed.

Example dimensions_examples :
  map (fun sz => (ph_width (phantom_options Sample.env "a.io" sz no_options),
                  ph_height (phantom_options Sample.env "a.io" sz no_options)))
      ["1024x768"; "320X480"; "1024"; "1x2x3"; ""]
  = [("1024", Some "768"); ("320", Some "480"); ("1024", None); ("1", Some "2"); ("", None)].
Proof. reflexivity. Qed.

(** ** What every subprocess is given *)

Section Spawned.

Variable E : Env.
Variable P : PhantomOptions -> Prop.
Hypothesis P_generated : forall url sz o, P (phantom_options E url sz o).

Let good (st : State) : Prop := Forall P (spawned st).

Lemma good_generate_each (record : bool) (url : string) (o : Options)
    (sizes : list string) (st : State) :
  good st -> good (fst (generate_each E record url o sizes st)).
Proof.
  revert st. induction sizes as [|s rest IH]; intros st Hst; [exact Hst|].
  cbn [generate_each]. unfold _generate.
  destruct (filename_of E url s o) as [f|].
  - cbn [_phantom]. apply IH. unfold good. cbn.
    apply Forall_app. split; [|repeat constructor; apply P_generated].
    destruct record; exact Hst.
  - destruct record; exact Hst.
Qed.

Lemma spawned_push_sizes (res : list Viewport) (st : State) :
  spawned (fold_left (fun s r => push_size (size r) s) res st) = spawned st.
Proof.
  revert st. induction res as [|r res IH]; intros st; [reflexivity|].
  cbn [fold_left]. now rewrite IH.
Qed.

Lemma good_deliver (p : Pending) (st : State) :
  good st -> good (fst (deliver E p st)).
Proof.
  intros Hst. destruct p as [url o | url sizes keywords o]; cbn [deliver].
  - unfold _resolution_cb. destruct (getRes E) as [err|res]; [exact Hst|].
    unfold ended. cbn [fst]. now apply good_generate_each.
  - unfold _viewport_cb. destruct (viewport E keywords) as [err|res]; [exact Hst|].
    unfold ended. cbn [fst]. apply good_generate_each.
    unfold good. now rewrite spawned_push_sizes.
Qed.

Lemma good_iterator (st : State) (s : Source) :
  good st -> good (fst (iterator E st s)).
Proof.
  intros Hst. unfold iterator. destruct (src_url s) as [u|]; [|exact Hst].
  destruct (negb (Js.truthy u)); [exact Hst|].
  destruct ((List.length (explicit_sizes (src_sizes s)) =? 0)%nat
            && Lodash.contains w3counter (keywords_of (src_sizes s))); [exact Hst|].
  destruct (negb (List.length (keywords_of (src_sizes s)) =? 0)%nat); [exact Hst|].
  match goal with
  | |- context [generate_each E true u ?o ?l ?s0] =>
      pose proof (good_generate_each true u o l s0 Hst) as Hg;
      destruct (generate_each E true u o l s0) as [st2 ok]
  end.
  exact Hg.
Qed.

Lemma good_finish (st : State) : good st -> good (finish st).
Proof.
  intros Hst. unfold finish.
  destruct (_dest (self st)) as [d|]; [destruct (Js.truthy d)|]; exact Hst.
Qed.

Lemma good_callback (len : nat) (out : Outcome) (lp : Loop) (st : State) :
  good st -> good (snd (callback len out lp st)).
Proof.
  intros Hst. unfold callback. destruct out as [|err| |].
  - destruct (failed lp); cbn [snd]; [exact Hst|].
    destruct (S (completed lp) =? len)%nat; [now apply good_finish | exact Hst].
  - destruct (failed lp); exact Hst.
  - exact Hst.
  - exact Hst.
Qed.

Lemma good_each_series (l : list Source) :
  forall st, good st -> good (each_series E l st).
Proof.
  induction l as [|s rest IH]; intros st Hst; [now apply good_finish|].
  cbn [each_series].
  pose proof (good_iterator st s Hst) as H1.
  destruct (iterator E st s) as [st1 [out|p]]; cbn [fst] in H1.
  - destruct out; [now apply IH | exact H1 | exact H1 | exact H1].
  - pose proof (good_deliver p st1 H1) as H2.
    destruct (deliver E p st1) as [st2 out]. cbn [fst] in H2.
    destruct out; [now apply IH | exact H2 | exact H2 | exact H2].
Qed.

Lemma good_start_all (len : nat) (l : list Source) :
  forall lp st waiting, good st -> good (snd (fst (start_all E len l lp st waiting))).
Proof.
  induction l as [|s rest IH]; intros lp st waiting Hst; [exact Hst|].
  cbn [start_all].
  pose proof (good_iterator st s Hst) as H1.
  destruct (iterator E st s) as [st1 [out|p]]; cbn [fst] in H1.
  - pose proof (good_callback len out lp st1 H1) as H2.
    destruct (callback len out lp st1) as [lp1 st2]. cbn [snd] in H2.
    destruct (crashed st2); [exact H2 | now apply IH].
  - now apply IH.
Qed.

Lemma good_deliver_all (len : nat) (waiting : list Pending) :
  forall lp st, good st -> good (deliver_all E len waiting lp st).
Proof.
  induction waiting as [|p rest IH]; intros lp st Hst; [exact Hst|].
  cbn [deliver_all].
  pose proof (good_deliver p st Hst) as H1.
  destruct (deliver E p st) as [st1 out]. cbn [fst] in H1.
  pose proof (good_callback len out lp st1 H1) as H2.
  destruct (callback len out lp st1) as [lp1 st2]. cbn [snd] in H2.
  destruct (crashed st2); [exact H2 | now apply IH].
Qed.

Lemma good_run (d : Discipline) (p : PageresInstance) :
  Forall P (spawned (run d E p)).
Proof.
  unfold run. destruct (negb (Js.truthy (phantomjs E))); [constructor|].
  assert (H0 : good (initial p)) by constructor.
  destruct d; cbn [eachAsync]; [now apply good_each_series|].
  unfold each_concurrent. destruct (_src p) as [|s rest]; [now apply good_finish|].
  pose proof (good_start_all (List.length (s :: rest)) (s :: rest)
                {| failed := false; completed := 0 |} (initial p) [] H0) as H1.
  destruct (start_all E (List.length (s :: rest)) (s :: rest)
              {| failed := false; completed := 0 |} (initial p) []) as [[lp st1] waiting].
  cbn [fst snd] in H1. destruct (crashed st1); [exact H1|].
  now apply good_deliver_all.
Qed.

End Spawned.

(** X7: on a host where [url.parse] finds a protocol in the strings that
    start with [http://] and in the file URLs, the URL that [_generate]
    computes always has a protocol, and every subprocess of every run, in
    both disciplines, is given such a URL. *)
Theorem every_subprocess_has_a_protocol :
  forall (d : Discipline) (E : Env) (p : PageresInstance),
    (forall s, has_protocol E ("http://" ++ s) = true) ->
    (forall f, has_protocol E (fileUrl E f) = true) ->
    (forall url, has_protocol E (normalize E url) = true)
    /\ Forall (fun j => has_protocol E (ph_url j) = true) (spawned (run d E p)).
Proof.
  intros d E p Hhttp Hfile.
  assert (Hn : forall url, has_protocol E (normalize E url) = true).
  { intros url. unfold normalize. destruct (existsSync E url); [apply Hfile|].
    destruct (Js.starts_with "localhost" url).
    - now rewrite Hhttp.
    - destruct (has_protocol E url) eqn:Hp; [exact Hp | apply Hhttp]. }
  split; [exact Hn|].
  apply good_run. intros url sz o. apply Hn.
Qed.

Lemma sample_file_protocol (f : string) :
  has_protocol Sample.env (fileUrl Sample.env f) = true.
Proof.
  unfold has_protocol. cbn [url_protocol fileUrl Sample.env].
  unfold Sample.node_protocol, Js.trim.
  change ("file:///home/user/" ++ f)
    with (String "f" (String "i" (String "l" (String "e" (String ":" ("///home/user/" ++ f)))))).
  rewrite trim_left_cons by reflexivity.
  rewrite !trim_right_cons by reflexivity.
  reflexivity.
Qed.

Lemma every_subprocess_has_a_protocol_witness :
  Forall (fun j => has_protocol Sample.env (ph_url j) = true)
         (spawned (run Series Sample.env
                     (Sample.with_sources [Sample.source "localhost:3000" ["1024x768"];
                                           Sample.source "index.html" ["iphone 5s"]]))).
Proof.
  exact (proj2 (every_subprocess_has_a_protocol Series Sample.env _
                  sample_http_protocol sample_file_protocol)).
Defined.

(** ** Filenames *)

Section Templates.

Lemma append_assoc (a b c : string) : (a ++ b) ++ c = a ++ (b ++ c).
Proof. induction a as [|x a IH]; cbn; [reflexivity | now rewrite IH]. Qed.

Lemma snoc_append (s t : string) (c : ascii) :
  Lodash.snoc s c ++ t = s ++ String c t.
Proof. unfold Lodash.snoc. now rewrite append_assoc. Qed.

Lemma render_emit (d : Lodash.Data) (lit : string) (cs : list Lodash.Chunk) :
  Lodash.render d (Lodash.emit lit cs) = lit ++ Lodash.render d cs.
Proof. destruct lit; reflexivity. Qed.

Lemma scan_text_plain (s : string) :
  forall lit, no_delimiter s = true ->
              Lodash.scan Lodash.Text lit s = Some (Lodash.emit (lit ++ s) []).
Proof.
  induction s as [|c r IH]; intros lit H.
  - cbn. now rewrite append_empty.
  - cbn [no_delimiter] in H. apply andb_true_iff in H as [H Hr].
    apply andb_true_iff in H as [H1 H2].
    apply negb_true_iff in H1. apply negb_true_iff in H2.
    cbn [Lodash.scan]. rewrite H1, H2, (IH _ Hr), snoc_append. reflexivity.
Qed.

Lemma no_delimiter_append (a b : string) :
  no_delimiter a = true -> no_delimiter b = true -> no_delimiter (a ++ b) = true.
Proof.
  intros Ha Hb. induction a as [|c a IH]; cbn in *; [exact Hb|].
  apply andb_true_iff in Ha as [Hc Ha]. now rewrite Hc, (IH Ha).
Qed.

(** A template that compiles renders to a name that ends with what
    followed the last delimiter, here the extension. *)
Lemma scan_keeps_extension (d : Lodash.Data) (t : string) :
  forall m lit cs,
    Lodash.scan m lit (t ++ ".png") = Some cs ->
    exists stem, Lodash.render d cs = stem ++ ".png".
Proof.
  induction t as [|c r IH]; intros m lit cs H.
  - destruct m; cbn in H; try discriminate; injection H as <-;
      rewrite render_emit; cbn [Lodash.render]; rewrite !snoc_append.
    + now exists lit.
    + exists (Lodash.snoc lit "<"). now rewrite snoc_append.
    + exists (Lodash.snoc lit "$"). now rewrite snoc_append.
  - cbn [append] in H. destruct m; cbn [Lodash.scan] in H.
    + destruct (c =? "<")%char; [now apply IH in H|].
      destruct (c =? "$")%char; now apply IH in H.
    + destruct (c =? "%")%char; [now apply IH in H|].
      destruct (c =? "<")%char; [now apply IH in H|].
      destruct (c =? "$")%char; now apply IH in H.
    + destruct (c =? "=")%char; [now apply IH in H | discriminate].
    + destruct (c =? "{")%char; [discriminate|].
      destruct (c =? "<")%char; [now apply IH in H|].
      destruct (c =? "$")%char; now apply IH in H.
    + destruct (c =? "%")%char; now apply IH in H.
    + destruct (c =? ">")%char.
      * destruct (Lodash.placeholder_of (Js.trim e)) as [p|]; [|discriminate].
        destruct (Lodash.scan Lodash.Text "" (r ++ ".png")) as [rest|] eqn:Hrest;
          [|discriminate].
        injection H as <-. apply IH in Hrest. destruct Hrest as [stem Hstem].
        rewrite render_emit. cbn [Lodash.render]. rewrite Hstem.
        exists (lit ++ Lodash.value_of d p ++ stem). now rewrite !append_assoc.
      * destruct (c =? "%")%char; now apply IH in H.
Qed.

End Templates.

(** X8: a filename template without [<] and [$] is taken literally:
    whatever the URL and the size, the stream is named by the template
    followed by [.png], so that all the streams of such a source bear the
    same name. *)
Theorem literal_template_names_every_stream_alike :
  forall (E : Env) (o : Options) (f : string),
    filename o = Some f ->
    no_delimiter f = true ->
    forall url sz, filename_of E url sz o = Some (f ++ ".png").
Proof.
  intros E o f Hf Hn url sz.
  unfold filename_of, Lodash.template, Lodash.compile, template_text. rewrite Hf.
  rewrite scan_text_plain by (apply no_delimiter_append; [exact Hn | reflexivity]).
  cbn [option_map append]. rewrite render_emit. cbn. now rewrite append_empty.
Qed.

Lemma literal_template_names_every_stream_alike_witness :
  let o := {| filename := Some "shot"; crop := None; delay := None; cookies := None;
              passthrough := [] |} in
  filename_of Sample.env "example.com" "1024x768" o = Some "shot.png"
  /\ filename_of Sample.env "example.org" "320x480" o = Some "shot.png".
Proof.
  intros o. split.
  - exact (literal_template_names_every_stream_alike Sample.env o "shot" eq_refl eq_refl
             "example.com" "1024x768").
  - exact (literal_template_names_every_stream_alike Sample.env o "shot" eq_refl eq_refl
             "example.org" "320x480").
Defined.

(** X9: for a filename template made of plain text and of
    interpolations of [url], [size], [crop] and [date], [_generate]
    returns a stream, spawning its subprocess, and the filename of the
    stream ends with [.png], whatever the URL, the size and the other
    options. *)
Theorem every_filename_ends_with_png :
  forall (E : Env) (url sz : string) (o : Options) (st : State),
    renders o = true ->
    exists stem i,
      _generate E url sz o st = (Some i, log_spawn (phantom_options E url sz o) st)
      /\ stream_job i = phantom_options E url sz o
      /\ stream_filename i = stem ++ ".png".
Proof.
  intros E url sz o st Hr.
  destruct (renders_chunks o Hr) as [chunks Hc].
  destruct (scan_keeps_extension (template_data E url sz o) _ _ _ _ Hc) as [stem Hstem].
  exists stem, (stream_of E url o chunks sz).
  split; [apply generate_compiled; exact Hc|]. split; [reflexivity | exact Hstem].
Qed.

Lemma every_filename_ends_with_png_witness :
  exists stem i,
    _generate Sample.env "example.com" "1024x768"
      (options (Pageres Sample.env true None)) (initial (Pageres Sample.env true None))
    = (Some i,
       log_spawn (phantom_options Sample.env "example.com" "1024x768"
                    (options (Pageres Sample.env true None)))
                 (initial (Pageres Sample.env true None)))
    /\ stream_job i = phantom_options Sample.env "example.com" "1024x768"
                        (options (Pageres Sample.env true None))
    /\ stream_filename i = stem ++ ".png".
Proof.
  exact (every_filename_ends_with_png Sample.env "example.com" "1024x768"
           (options (Pageres Sample.env true None)) (initial (Pageres Sample.env true None))
           eq_refl).
Defined.

(** ** The constructor and the registration of sources *)

(** X10: whatever the options and however it is called, the constructor
    returns an instance whose filename template is a non-empty string,
    whose cookies are all in the structured form, a cookie given as a
    string having been parsed and the others kept in place, and whose
    lists are empty; a non-empty template given with [new] is kept. *)
Theorem constructor_normalises_options :
  forall (E : Env) (with_new : bool) (opts : option Options),
    let p := Pageres E with_new opts in
    (exists f, filename (options p) = Some f /\ Js.truthy f = true)
    /\ (exists cs, cookies (options p) = Some (map CookieObject cs))
    /\ (forall o l, with_new = true -> opts = Some o -> cookies o = Some l ->
          cookies (options p)
          = Some (map (fun el => match el with
                                 | CookieString s => CookieObject (parseCookiePhantomjs E s)
                                 | CookieObject c => CookieObject c
                                 end) l))
    /\ (forall o f, with_new = true -> opts = Some o -> filename o = Some f ->
          Js.truthy f = true -> filename (options p) = Some f)
    /\ _src p = [] /\ _items p = [] /\ _sizes p = [] /\ _urls p = []
    /\ stats p = None /\ _dest p = None.
Proof.
  intros E with_new opts p.
  assert (Hc : forall o, exists cs,
             cookies (options (construct E o)) = Some (map CookieObject cs)).
  { intros o. unfold construct. cbn [options cookies].
    generalize (match cookies (assign no_options o) with Some l => l | None => [] end).
    intros l.
    exists (map (fun el => match el with
                           | CookieString s => parseCookiePhantomjs E s
                           | CookieObject c => c
                           end) l).
    rewrite map_map. f_equal. apply map_ext. now intros [s|c]. }
  assert (Hf : forall o, exists f,
             filename (options (construct E o)) = Some f /\ Js.truthy f = true).
  { intros o. unfold construct. cbn [options filename].
    destruct (filename (assign no_options o)) as [f|].
    - destruct (Js.truthy f) eqn:Ht; eexists; split; try reflexivity; assumption.
    - eexists; split; reflexivity. }
  subst p. unfold Pageres.
  split; [destruct (negb with_new); apply Hf|].
  split; [destruct (negb with_new); apply Hc|].
  split.
  { intros o l -> -> Hl. cbn. now rewrite Hl. }
  split.
  { intros o f -> -> Hfo Ht. unfold construct.
    cbn [negb options filename assign]. rewrite Hfo. cbn [or_else]. now rewrite Ht. }
  destruct (negb with_new); repeat split.
Qed.

(** X11: a source with a URL and at least one explicit size that also
    names the popular-resolutions marker does not get the popular
    resolutions: [get-res] is not invoked, and the marker is handed to
    [viewport-list] among the device keywords. *)
Theorem marker_beside_a_size_is_a_device_keyword :
  forall (E : Env) (st : State) (s : Source) (url : string),
    src_url s = Some url ->
    Js.truthy url = true ->
    explicit_sizes (src_sizes s) <> [] ->
    In w3counter (src_sizes s) ->
    iterator E st s
    = (log_viewport (keywords_of (src_sizes s)) (push_url url st),
       Await (AwaitViewport url (explicit_sizes (src_sizes s))
                (keywords_of (src_sizes s)) (merged st s)))
    /\ In w3counter (keywords_of (src_sizes s))
    /\ getRes_calls (fst (iterator E st s)) = getRes_calls st
    /\ viewport_calls (fst (iterator E st s))
       = (viewport_calls st ++ [keywords_of (src_sizes s)])%list.
Proof.
  intros E st s url Hu Ht Hs Hin.
  assert (Hk : In w3counter (keywords_of (src_sizes s))).
  { rewrite keywords_are_the_rest. apply filter_In. split; [exact Hin | reflexivity]. }
  assert (Hit : iterator E st s
                = (log_viewport (keywords_of (src_sizes s)) (push_url url st),
                   Await (AwaitViewport url (explicit_sizes (src_sizes s))
                            (keywords_of (src_sizes s)) (merged st s)))).
  { unfold iterator. rewrite Hu, Ht. cbn [negb].
    destruct (explicit_sizes (src_sizes s)) as [|z zs] eqn:Hz; [contradiction|].
    cbn [List.length Nat.eqb andb].
    destruct (keywords_of (src_sizes s)) as [|k ks] eqn:Hks; [destruct Hk|].
    reflexivity. }
  rewrite Hit. repeat split; assumption.
Qed.

Lemma marker_beside_a_size_is_a_device_keyword_witness :
  let s := Sample.source "example.com" ["1024x768"; "w3counter"] in
  let st := initial (Sample.with_sources [s]) in
  viewport_calls (fst (iterator Sample.env st s)) = [["w3counter"]]
  /\ getRes_calls (fst (iterator Sample.env st s)) = 0.
Proof.
  intros s st.
  assert (Hs : explicit_sizes (src_sizes s) <> []) by (vm_compute; discriminate).
  pose proof (marker_beside_a_size_is_a_device_keyword Sample.env st s "example.com"
                eq_refl eq_refl Hs (or_intror (or_introl eq_refl))) as H.
  destruct H as (_ & _ & Hg & Hv).
  split; [exact Hv | exact Hg].
Defined.

(** ** Running twice *)

(** X12: an instance keeps what a run has appended.  When a run that
    succeeds is followed by a second one on the same instance, the second
    run spawns a new subprocess for every job and reports the streams of
    the first run again, before its own; the URLs of the sources are
    recorded twice. *)
Theorem second_run_reports_the_first_again :
  forall (d : Discipline) (E : Env) (p : PageresInstance),
    Js.truthy (phantomjs E) = true ->
    forallb (healthy E (options p)) (_src p) = true ->
    let r1 := run d E p in
    let r2 := run d E (self r1) in
    exists first second,
      _items (self r1) = (_items p ++ first)%list
      /\ spawned r1 = map stream_job first
      /\ reports r1 = [final_report (self r1)]
      /\ _items (self r2) = (_items p ++ first ++ second)%list
      /\ spawned r2 = map stream_job second
      /\ reports r2 = [final_report (self r2)]
      /\ _urls (self r2)
         = (_urls p ++ map url_of (_src p) ++ map url_of (_src p))%list.
Proof.
  intros d E p Hph Hall r1 r2.
  destruct (grows_run E d p) as (O1 & S1 & _ & (first & I1 & P1) & _).
  fold r1 in O1, S1, I1, P1. cbn [initial self spawned] in O1, S1, I1, P1.
  destruct (run_done d E p Hph Hall) as ((D1 & _) & U1). fold r1 in D1, U1.
  assert (Hall2 : forallb (healthy E (options (self r1))) (_src (self r1)) = true)
    by now rewrite O1, S1.
  destruct (grows_run E d (self r1)) as (_ & _ & _ & (second & I2 & P2) & _).
  fold r2 in I2, P2. cbn [initial self spawned] in I2, P2.
  destruct (run_done d E (self r1) Hph Hall2) as ((D2 & _) & U2). fold r2 in D2, U2.
  exists first, second. repeat split; auto.
  - now rewrite I2, I1, app_assoc.
  - now rewrite U2, U1, S1, app_assoc.
Qed.

Lemma second_run_reports_the_first_again_witness :
  let p := Sample.with_sources [Sample.source "example.com" ["1024x768"]] in
  let r1 := run Series Sample.env p in
  let r2 := run Series Sample.env (self r1) in
  map stream_filename (_items (self r2))
  = ["example.com-1024x768.png"; "example.com-1024x768.png"]
  /\ _urls (self r2) = ["example.com"; "example.com"].
Proof.
  intros p r1 r2.
  assert (Hall : forallb (healthy Sample.env (options p)) (_src p) = true)
    by (vm_compute; reflexivity).
  pose proof (second_run_reports_the_first_again Series Sample.env p eq_refl Hall) as H.
  destruct H as (first & second & _ & _ & _ & _ & _ & _ & HU).
  split; [vm_compute; reflexivity | exact HU].
Defined.

(** ** How often the lookups are invoked *)

Section Lookups.

Variable E : Env.

Lemma lookups_generate_each (record : bool) (url : string) (o : Options)
    (sizes : list string) (st : State) :
  lookups (fst (generate_each E record url o sizes st)) = lookups st.
Proof.
  revert st. induction sizes as [|s rest IH]; intros st; [reflexivity|].
  cbn [generate_each]. unfold _generate.
  destruct (filename_of E url s o).
  - cbn. rewrite IH. destruct record; reflexivity.
  - destruct record; reflexivity.
Qed.

Lemma lookups_push_sizes (res : list Viewport) (st : State) :
  lookups (fold_left (fun s r => push_size (size r) s) res st) = lookups st.
Proof.
  revert st. induction res as [|r res IH]; intros st; [reflexivity|].
  cbn [fold_left]. now rewrite IH.
Qed.

Lemma lookups_deliver (p : Pending) (st : State) :
  lookups (fst (deliver E p st)) = lookups st.
Proof.
  destruct p as [url o | url sizes keywords o]; cbn [deliver].
  - unfold _resolution_cb. destruct (getRes E); [reflexivity|].
    unfold ended. cbn [fst]. now rewrite lookups_generate_each.
  - unfold _viewport_cb. destruct (viewport E keywords); [reflexivity|].
    unfold ended. cbn [fst]. now rewrite lookups_generate_each, lookups_push_sizes.
Qed.

Lemma lookups_finish (st : State) : lookups (finish st) = lookups st.
Proof.
  unfold finish. destruct (_dest (self st)) as [d|]; [destruct (Js.truthy d)|];
    reflexivity.
Qed.

Lemma lookups_callback (len : nat) (out : Outcome) (lp : Loop) (st : State) :
  lookups (snd (callback len out lp st)) = lookups st.
Proof.
  unfold callback. destruct out; try reflexivity.
  - destruct (failed lp); cbn [snd]; [reflexivity|].
    destruct (S (completed lp) =? len)%nat; [apply lookups_finish | reflexivity].
  - destruct (failed lp); reflexivity.
Qed.

(** The step of one source sends at most one lookup: [get-res] on the
    popular branch, [viewport-list] with the keywords on the viewport
    branch. *)
Lemma lookups_iterator (st : State) (s : Source) :
  lookups (fst (iterator E st s)) = lookups_after (lookups st) [s].
Proof.
  unfold lookups_after, takes_popular, takes_viewport, missing_url, iterator.
  cbn [filter]. destruct (src_url s) as [u|].
  2:{ cbn. now rewrite Nat.add_0_r, app_nil_r. }
  destruct (negb (Js.truthy u)).
  { cbn. now rewrite Nat.add_0_r, app_nil_r. }
  cbn [negb andb].
  destruct ((List.length (explicit_sizes (src_sizes s)) =? 0)%nat
            && Lodash.contains w3counter (keywords_of (src_sizes s))).
  { cbn. now rewrite Nat.add_1_r, app_nil_r. }
  cbn [negb andb].
  destruct (negb (List.length (keywords_of (src_sizes s)) =? 0)%nat).
  { cbn. now rewrite Nat.add_0_r. }
  match goal with
  | |- context [generate_each E true u ?o ?l ?s0] =>
      pose proof (lookups_generate_each true u o l s0) as Hg;
      destruct (generate_each E true u o l s0) as [st2 ok]
  end.
  cbn in *. rewrite Hg. cbn. now rewrite Nat.add_0_r, app_nil_r.
Qed.

Lemma lookups_after_cons (b : nat * list (list string)) (s : Source) (l : list Source) :
  lookups_after (lookups_after b [s]) l = lookups_after b (s :: l).
Proof.
  unfold lookups_after. cbn [fst snd filter].
  destruct (takes_popular s), (takes_viewport s); cbn [List.length map app];
    rewrite ?app_nil_r, ?Nat.add_0_r, <- ?app_assoc; f_equal; cbn; lia.
Qed.

Lemma series_lookups (l : list Source) :
  forall st,
    forallb (healthy E (options (self st))) l = true ->
    lookups (each_series E l st) = lookups_after (lookups st) l.
Proof.
  induction l as [|s rest IH]; intros st Hall.
  - cbn [each_series]. rewrite lookups_finish. unfold lookups_after. cbn.
    now rewrite Nat.add_0_r, app_nil_r.
  - cbn [forallb] in Hall. apply andb_true_iff in Hall as [Hs Hrest].
    cbn [each_series]. rewrite <- lookups_after_cons, <- (lookups_iterator st s).
    destruct (iterator_healthy E st s Hs) as (Ho & _ & Hstep).
    destruct (iterator E st s) as [st1 step]. cbn [fst snd] in Ho, Hstep |- *.
    outside_eq Ho.
    destruct Hstep as [-> | (p & -> & Hp)].
    + apply IH. now rewrite Hoptions.
    + destruct (deliver_ok E p st1 Hp) as (Hn & Ho2 & _).
      pose proof (lookups_deliver p st1) as Hl.
      destruct (deliver E p st1) as [st2 out]. cbn [fst snd] in Hn, Ho2, Hl.
      subst out. outside_eq Ho2. rewrite <- Hl. apply IH. congruence.
Qed.

Lemma start_all_lookups (len : nat) (l : list Source) :
  forall lp st waiting,
    crashed (snd (fst (start_all E len l lp st waiting))) = false ->
    lookups (snd (fst (start_all E len l lp st waiting)))
    = lookups_after (lookups st) l.
Proof.
  induction l as [|s rest IH]; intros lp st waiting Hcr.
  - unfold lookups_after. cbn. now rewrite Nat.add_0_r, app_nil_r.
  - rewrite <- lookups_after_cons, <- (lookups_iterator st s).
    cbn [start_all] in Hcr |- *.
    destruct (iterator E st s) as [st1 [out|p]]; cbn [fst].
    + pose proof (lookups_callback len out lp st1) as Hl.
      destruct (callback len out lp st1) as [lp1 st2]. cbn [snd] in Hl.
      destruct (crashed st2) eqn:Hc2; [cbn in Hcr; congruence|].
      rewrite <- Hl. now apply IH.
    + now apply IH.
Qed.

Lemma deliver_all_lookups (len : nat) (waiting : list Pending) :
  forall lp st, lookups (deliver_all E len waiting lp st) = lookups st.
Proof.
  induction waiting as [|p rest IH]; intros lp st; [reflexivity|].
  cbn [deliver_all].
  pose proof (lookups_deliver p st) as H1.
  destruct (deliver E p st) as [st1 out]. cbn [fst] in H1.
  pose proof (lookups_callback len out lp st1) as H2.
  destruct (callback len out lp st1) as [lp1 st2]. cbn [snd] in H2.
  destruct (crashed st2); [congruence|]. rewrite IH. congruence.
Qed.

Lemma concurrent_lookups (l : list Source) (st : State) :
  crashed (each_concurrent E l st) = false ->
  lookups (each_concurrent E l st) = lookups_after (lookups st) l.
Proof.
  unfold each_concurrent. destruct l as [|s rest] eqn:Hl.
  - intros _. rewrite lookups_finish. unfold lookups_after. cbn.
    now rewrite Nat.add_0_r, app_nil_r.
  - rewrite <- Hl. clear Hl s rest.
    pose proof (start_all_lookups (List.length l) l
                  {| failed := false; completed := 0 |} st []) as H.
    destruct (start_all E (List.length l) l {| failed := false; completed := 0 |} st [])
      as [[lp st1] waiting]. cbn [fst snd] in H.
    destruct (crashed st1) eqn:Hc1; [congruence|].
    intros _. rewrite deliver_all_lookups. now apply H.
Qed.

End Lookups.

Lemma series_plain_sends_nothing (E : Env) (l : list Source) :
  forall st,
    forallb plain l = true ->
    getRes_calls (each_series E l st) = getRes_calls st
    /\ viewport_calls (each_series E l st) = viewport_calls st.
Proof.
  induction l as [|s rest IH]; intros st Hall.
  - cbn [each_series]. unfold finish.
    destruct (_dest (self st)) as [d|]; [destruct (Js.truthy d)|]; now split.
  - cbn [forallb] in Hall. apply andb_true_iff in Hall as [Hs Hrest].
    destruct (plain_parts s Hs) as (u & Hu & Ht & Hk).
    cbn [each_series]. rewrite (iterator_plain E st s u Hu Ht Hk).
    pose proof (lookups_generate_each E true u (merged st s)
                  (explicit_sizes (src_sizes s)) (push_url u st)) as Hg.
    unfold lookups in Hg. cbn [push_url with_self getRes_calls viewport_calls] in Hg.
    destruct (generate_each E true u (merged st s) (explicit_sizes (src_sizes s))
                (push_url u st)) as [st1 ok].
    cbn [fst snd] in Hg |- *. injection Hg as G1 G2.
    destruct ok.
    + destruct (IH st1 Hrest) as [R1 R2]. split; congruence.
    + cbn. now split.
Qed.

(** X4: when every registered source has a URL and no keyword among its
    tokens, no lookup is sent, neither [get-res] nor [viewport-list] being
    invoked in either discipline, and the two disciplines of the
    iteration give the same run. *)
Theorem disciplines_agree_without_keywords :
  forall (E : Env) (p : PageresInstance),
    forallb plain (_src p) = true ->
    run Concurrent E p = run Series E p
    /\ (forall d, getRes_calls (run d E p) = 0 /\ viewport_calls (run d E p) = []).
Proof.
  intros E p Hall. split; [now apply run_plain|].
  assert (HS : getRes_calls (run Series E p) = 0 /\ viewport_calls (run Series E p) = []).
  { unfold run. destruct (negb (Js.truthy (phantomjs E))); [now split|].
    cbn [eachAsync]. exact (series_plain_sends_nothing E (_src p) (initial p) Hall). }
  intros d. destruct d; [exact HS | now rewrite (run_plain E p Hall)].
Qed.

Lemma disciplines_agree_without_keywords_witness :
  let p := Sample.with_sources [Sample.source "example.com" ["1024x768"; "320x480"];
                                Sample.source "index.html" ["1024x768"]] in
  run Concurrent Sample.env p = run Series Sample.env p
  /\ viewport_calls (run Concurrent Sample.env p) = [].
Proof.
  intros p.
  pose proof (disciplines_agree_without_keywords Sample.env p eq_refl) as [H1 H2].
  split; [exact H1 | exact (proj2 (H2 Concurrent))].
Defined.

(** X13: in a run that gets through every source, each source sends its
    own lookup: [get-res] is invoked as many times as there are sources on
    the popular-resolutions branch, and [viewport-list] once for each
    source on the viewport branch, with the keywords of that source, in
    registration order.  Nothing is shared between sources, in either
    discipline. *)
Theorem one_lookup_for_each_source :
  forall (d : Discipline) (E : Env) (p : PageresInstance),
    Js.truthy (phantomjs E) = true ->
    forallb (healthy E (options p)) (_src p) = true ->
    let r := run d E p in
    getRes_calls r = List.length (filter takes_popular (_src p))
    /\ viewport_calls r
       = map (fun s => keywords_of (src_sizes s)) (filter takes_viewport (_src p)).
Proof.
  intros d E p Hph Hall r.
  assert (H : lookups r = lookups_after (0, []) (_src p)).
  { destruct (run_done d E p Hph Hall) as ((_ & _ & Hcr) & _). fold r in Hcr.
    subst r. unfold run in *. rewrite Hph in *. cbn [negb] in *.
    destruct d; cbn [eachAsync] in *.
    - exact (series_lookups E (_src p) (initial p) Hall).
    - exact (concurrent_lookups E (_src p) (initial p) Hcr). }
  unfold lookups, lookups_after in H. cbn [fst snd] in H.
  injection H as H1 H2. now split.
Qed.

Lemma one_lookup_for_each_source_witness :
  let p := Sample.with_sources [Sample.source "example.com" ["iphone 5s"];
                                Sample.source "example.org" ["w3counter"];
                                Sample.source "example.net" ["1024x768"; "iphone 5s"];
                                Sample.source "example.edu" ["w3counter"]] in
  getRes_calls (run Concurrent Sample.env p) = 2
  /\ viewport_calls (run Concurrent Sample.env p) = [["iphone 5s"]; ["iphone 5s"]].
Proof.
  intros p.
  assert (Hall : forallb (healthy Sample.env (options p)) (_src p) = true)
    by (vm_compute; reflexivity).
  pose proof (one_lookup_for_each_source Concurrent Sample.env p eq_refl Hall) as H.
  destruct H as [H1 H2].
  split; [exact H1 | exact H2].
Defined.

(** ** The success message *)

Lemma jobs_as_many_as_sizes (E : Env) (o : Options) (l : list Source) :
  List.length (flat_map (jobs_of E o) l)
  = List.length (flat_map (fun s => explicit_sizes (src_sizes s)) l).
Proof.
  induction l as [|s rest IH]; [reflexivity|].
  cbn [flat_map]. rewrite !length_app, IH. unfold jobs_of. now rewrite length_map.
Qed.

(** X14: after a run on a fresh instance whose sources have a URL, only
    explicit sizes and a template that compiles, the success message
    gives the number of streams generated, then the number of distinct
    URLs with [url] in the singular exactly when it is one, then the
    number of distinct sizes with [resolution] in the singular exactly
    when it is one. *)
Theorem success_message_counts_the_streams :
  forall (d : Discipline) (E : Env) (p : PageresInstance) (success : string),
    Js.truthy (phantomjs E) = true ->
    forallb plain (_src p) = true ->
    forallb (healthy E (options p)) (_src p) = true ->
    _sizes p = [] -> _items p = [] -> _urls p = [] ->
    let r := run d E p in
    let u := List.length (Lodash.uniq (map url_of (_src p))) in
    let s := List.length
               (Lodash.uniq (flat_map (fun x => explicit_sizes (src_sizes x)) (_src p))) in
    _logSuccessMessage success (self r)
    = newline ++ success ++ " Successfully generated "
      ++ percent_d (Some (List.length (_items (self r))))
      ++ " screenshots from " ++ percent_d (Some u) ++ " "
      ++ (if (u =? 1)%nat then "url" else "urls")
      ++ " and " ++ percent_d (Some s) ++ " "
      ++ (if (s =? 1)%nat then "resolution" else "resolutions").
Proof.
  intros d E p success Hph Hp Hh Hs Hi Hu r u s.
  destruct (run_done d E p Hph Hh) as ((_ & D2 & _) & U). fold r in D2, U.
  assert (Hr : r = run Series E p).
  { subst r. destruct d; [reflexivity | now apply run_plain]. }
  assert (HS : _items (self r) = flat_map (jobs_of E (options p)) (_src p)
               /\ _sizes (self r)
                  = flat_map (fun x => explicit_sizes (src_sizes x)) (_src p)).
  { rewrite Hr. unfold run. rewrite Hph. cbn [negb eachAsync].
    destruct (series_plain E (options p) (_src p) (initial p) eq_refl Hp Hh)
      as (R1 & R2 & _).
    cbn [initial self] in R1, R2. rewrite Hi in R1. rewrite Hs in R2. now split. }
  destruct HS as [HI HZ].
  unfold _logSuccessMessage. rewrite D2. unfold stats_of. cbn [option_map screenshots urls].
  rewrite U, Hu, HZ, HI. cbn [app]. rewrite jobs_as_many_as_sizes. fold u s.
  assert (H1 : forall n, is_one (Some n) = (n =? 1)%nat).
  { intros [|[|n]]; reflexivity. }
  now rewrite !H1.
Qed.

Lemma success_message_counts_the_streams_witness :
  let p := Sample.with_sources [Sample.source "example.com" ["1024x768"; "320x480"];
                                Sample.source "example.org" ["1024x768"]] in
  _logSuccessMessage "ok" (self (run Series Sample.env p))
  = newline ++ "ok Successfully generated 3 screenshots from 2 urls and 2 resolutions".
Proof.
  intros p.
  assert (Hp : forallb plain (_src p) = true) by (vm_compute; reflexivity).
  assert (Hh : forallb (healthy Sample.env (options p)) (_src p) = true)
    by (vm_compute; reflexivity).
  pose proof (success_message_counts_the_streams Series Sample.env p "ok"
                eq_refl Hp Hh eq_refl eq_refl eq_refl) as H.
  exact (eq_trans H ltac:(vm_compute; reflexivity)).
Defined.

(** With a device keyword next to an explicit size, or before any run,
    the message reads otherwise. *)
Example success_message_other_cases :
  _logSuccessMessage "ok"
    (self (run Series Sample.env
             (Sample.with_sources [Sample.source "example.com" ["1024x768"; "iphone 5s"]])))
  = newline ++ "ok Successfully generated 1 screenshots from 1 url and 1 resolution"
  /\ _logSuccessMessage "ok" (Pageres Sample.env true None)
     = newline ++ "ok Successfully generated 0 screenshots from NaN urls and NaN resolutions".
Proof. split; vm_compute; reflexivity. Qed.

(** ** Options of a source *)

(** X15: cookies are parsed by the constructor only.  A list of cookies
    given in the options of a source reaches the renderer as it is, the
    cookies written as strings staying strings; a source registered
    without options gets the cookies of the instance, which are all in
    the structured form. *)
Theorem source_cookies_are_not_parsed :
  forall (E : Env) (opts : option Options) (s : Source) (url sz : string),
    let st := initial (Pageres E true opts) in
    let given := ph_options (phantom_options E url sz (merged st s)) in
    (forall o l, src_options s = Some o -> cookies o = Some l -> cookies given = Some l)
    /\ (src_options s = None ->
        cookies given = cookies (options (Pageres E true opts))
        /\ exists cs, cookies given = Some (map CookieObject cs)).
Proof.
  intros E opts s url sz st given.
  assert (Hc : exists cs, cookies (options (Pageres E true opts)) = Some (map CookieObject cs)).
  { unfold Pageres, construct. cbn [negb options cookies].
    generalize (match cookies (assign no_options opts) with Some l => l | None => [] end).
    intros l.
    exists (map (fun el => match el with
                           | CookieString x => parseCookiePhantomjs E x
                           | CookieObject c => c
                           end) l).
    rewrite map_map. f_equal. apply map_ext. now intros [x|c]. }
  subst given st. unfold merged. cbn [initial self phantom_options ph_options].
  split.
  - intros o l Ho Hl. rewrite Ho. cbn. now rewrite Hl.
  - intros Hn. rewrite Hn. destruct Hc as [cs Hcs].
    cbn [assign or_else cookies no_options]. rewrite Hcs. cbn [or_else].
    split; [reflexivity | now exists cs].
Qed.

Example source_cookie_string_reaches_the_renderer :
  let s := {| src_url := Some "example.com"; src_sizes := ["1024x768"];
              src_options := Some {| filename := None; crop := None; delay := None;
                                     cookies := Some [CookieString "a=b"];
                                     passthrough := [] |} |} in
  let global := Some {| filename := None; crop := None; delay := None;
                        cookies := Some [CookieString "c=d"]; passthrough := [] |} in
  map (fun j => cookies (ph_options j))
      (spawned (run Series Sample.env
                  (src (src (Pageres Sample.env true global) (src_url s) (src_sizes s)
                            (src_options s))
                       (Some "example.org") ["1024x768"] None)))
  = [Some [CookieString "a=b"]; Some [CookieObject [("name", "c=d")]]].
Proof. reflexivity. Qed.
